(** * recommendmovie: collaborative filtering and its cross-validation

    A shallow embedding of [recommendmovie.py].

    Conventions of the embedding.
    - A Python [float] is read as a real number ([R]); [round_stars] alone is
      embedded on [Q], where Python's [round] can be computed (every finite
      double is a rational, and doubling and halving a double is exact).
    - A Python [dict] is an association list in insertion order with unique
      keys; iteration follows the list, as it does in Python.
    - A Python exception is a value of [exn]; a function that can raise
      returns a [result]. *)

From Stdlib Require Import Reals Lra Lia List Ascii String ZArith QArith Qround Bool Permutation.
Import ListNotations.

Open Scope string_scope.
Open Scope R_scope.

(* ================================================================= *)
(** ** Exceptions *)

Inductive exn : Type :=
| ZeroDivisionError
| KeyError
| ValueError.

Inductive result (A : Type) : Type :=
| Ok (a : A)
| Raise (e : exn).

Arguments Ok {A} a.
Arguments Raise {A} e.

Definition bind {A B : Type} (m : result A) (k : A -> result B) : result B :=
  match m with
  | Ok a => k a
  | Raise e => Raise e
  end.

Notation "x <- m ;; k" := (bind m (fun x => k))
  (at level 61, m at next level, right associativity).
Notation "' p <- m ;; k" := (bind m (fun x => let p := x in k))
  (at level 61, p pattern, m at next level, right associativity).

(** A [for] loop whose body may raise: the accumulator is threaded from left
    to right and the first exception ends the loop. *)
Fixpoint for_each {A S : Type} (body : S -> A -> result S) (l : list A) (s : S)
  : result S :=
  match l with
  | [] => Ok s
  | a :: l' => s' <- body s a ;; for_each body l' s'
  end.

(* ================================================================= *)
(** ** Numbers *)

Definition is_zero (x : R) : bool := if Req_dec_T x 0 then true else false.
Definition is_neg (x : R) : bool := if Rlt_dec x 0 then true else false.
Definition is_pos (x : R) : bool := if Rlt_dec 0 x then true else false.

(** [x / y] *)
Definition pydiv (x y : R) : result R :=
  if is_zero y then Raise ZeroDivisionError else Ok (x / y).

(** [math.sqrt] *)
Definition pysqrt (x : R) : result R :=
  if is_neg x then Raise ValueError else Ok (sqrt x).

(** [math.log] *)
Definition pylog (x : R) : result R :=
  if is_pos x then Ok (ln x) else Raise ValueError.

(** [sum(...)]: a left fold from [0]. *)
Definition pysum (l : list R) : R := fold_left Rplus l 0.

(** [sum(...)] over integers. *)
Definition pysumZ (l : list Z) : Z := fold_left Z.add l 0%Z.

(** [max(...)]: fails on an empty sequence. *)
Definition pymaxZ (l : list Z) : result Z :=
  match l with
  | [] => Raise ValueError
  | x :: l' => Ok (fold_left Z.max l' x)
  end.

(* ================================================================= *)
(** ** Dictionaries *)

Section Dict.
Context {V : Type}.

Definition dict : Type := list (string * V).

(** [d.get(k)] *)
Fixpoint get (k : string) (d : dict) : option V :=
  match d with
  | [] => None
  | (k', v) :: d' => if String.eqb k k' then Some v else get k d'
  end.

(** [k in d] *)
Definition contains (k : string) (d : dict) : bool :=
  match get k d with
  | Some _ => true
  | None => false
  end.

(** [d[k]] *)
Definition item (k : string) (d : dict) : result V :=
  match get k d with
  | Some v => Ok v
  | None => Raise KeyError
  end.

(** [d[k] = v]: an existing key keeps its place, a new key goes last. *)
Fixpoint set (k : string) (v : V) (d : dict) : dict :=
  match d with
  | [] => [(k, v)]
  | (k', v') :: d' =>
      if String.eqb k k' then (k, v) :: d' else (k', v') :: set k v d'
  end.

Definition keys (d : dict) : list string := map fst d.
Definition values (d : dict) : list V := map snd d.
End Dict.

Arguments dict V : clear implicits.

(** [len(d)] as a number. *)
Definition len {V : Type} (d : dict V) : R := INR (List.length d).

(** A set of strings: its elements without repetition. *)
Definition pyset : Type := list string.

Definition set_mem (x : string) (s : pyset) : bool :=
  existsb (String.eqb x) s.

Definition set_add (x : string) (s : pyset) : pyset :=
  if set_mem x s then s else (s ++ [x])%list.

(* ================================================================= *)
(** ** Similarity and distance measures *)

(** A rating vector, and likewise a tf-idf vector: key to real. *)
Definition vec : Type := dict R.

(** The loop that the measures share, [for key, x in our.items(): if key in
    other: acc += f x other[key]]. *)
Definition accumulate_shared (f : R -> R -> R) (our other : vec) : R :=
  fold_left
    (fun acc '(key, x) =>
       match get key other with
       | Some y => acc + f x y
       | None => acc
       end)
    our 0.

Definition pearson_correlation (our_vector other_vector : vec)
    (our_avg other_avg : R) : result R :=
  let numer :=
    accumulate_shared (fun a b => (a - our_avg) * (b - other_avg))
      our_vector other_vector in
  let denom := pysum (map (fun '(_, rating) => (rating - our_avg) ^ 2) our_vector) in
  let denom :=
    denom * pysum (map (fun '(_, rating) => (rating - other_avg) ^ 2) other_vector) in
  if is_zero denom then Ok 0
  else s <- pysqrt denom ;; pydiv numer s.

Definition cosine_similarity (our_vector other_vector : vec) : result R :=
  let numer := accumulate_shared Rmult our_vector other_vector in
  denom <- pysqrt (pysum (map (fun '(_, rating) => rating ^ 2) our_vector)) ;;
  s <- pysqrt (pysum (map (fun '(_, rating) => rating ^ 2) other_vector)) ;;
  let denom := denom * s in
  pydiv numer denom.

(** The generator of the distance functions,
    [g(x, other[key]) for key, x in our.items() if key in other]. *)
Definition shared_terms (g : R -> R -> R) (our other : vec) : list R :=
  flat_map
    (fun '(key, x) =>
       match get key other with
       | Some y => [g x y]
       | None => []
       end)
    our.

Definition euclidean_distance (our_vector other_vector : vec) : result R :=
  pysqrt (pysum (shared_terms (fun a b => (a - b) ^ 2) our_vector other_vector)).



(* ================================================================= *)
(** ** Genre weighting *)

Record Movie : Type := mkMovie { title : string; genres : list string }.

Definition catalog : Type := dict Movie.

(** A value whose truth is tested by [if]: a flag, or a number, which is
    true unless it is zero. *)
Inductive pyval : Type :=
| PyBool (b : bool)
| PyFloat (x : R).

Definition truthy (v : pyval) : bool :=
  match v with
  | PyBool b => b
  | PyFloat x => negb (is_zero x)
  end.

(** [try: d[k] += 1 except KeyError: d[k] = 1] *)
Definition incr (k : string) (d : dict Z) : dict Z :=
  match get k d with
  | Some c => set k (c + 1)%Z d
  | None => set k 1%Z d
  end.

(** [d.get(k, 0)] *)
Definition count_of (k : string) (d : dict Z) : Z :=
  match get k d with
  | Some c => c
  | None => 0%Z
  end.

Definition get_genre_frequencies (user_ratings : vec) (movies : catalog)
  : result (dict Z) :=
  for_each
    (fun genre_frequencies '(mid, _) =>
       m <- item mid movies ;;
       Ok (fold_left (fun gf genre => incr genre gf) (genres m) genre_frequencies))
    user_ratings [].

Definition term_frequency (genre_frequencies : dict Z) (genre : string)
    (augmented boolean logarithmic : bool) : result R :=
  if augmented then
    m <- pymaxZ (values genre_frequencies) ;;
    q <- pydiv (IZR (count_of genre genre_frequencies)) (IZR m) ;;
    Ok (0.5 + 0.5 * q)
  else if boolean then
    Ok (if contains genre genre_frequencies then 1 else 0)
  else if logarithmic then
    pylog (IZR (1 + count_of genre genre_frequencies))
  else
    pydiv (IZR (count_of genre genre_frequencies))
          (IZR (pysumZ (values genre_frequencies))).

Definition inverse_document_frequency (genre : string) (corpus : dict Z)
    (n : Z) (smooth : bool) : result R :=
  match get genre corpus with
  | None => Ok 0
  | Some total =>
      if smooth then q <- pydiv (IZR (1 + n)) (IZR total) ;; pylog q
      else q <- pydiv (IZR n) (IZR total) ;; pylog q
  end.

Definition tf_idf (genre_frequencies : dict Z) (genre : string)
    (corpus : dict Z) (n : Z) (augmented boolean logarithmic smooth : bool)
  : result R :=
  res <- term_frequency genre_frequencies genre augmented boolean logarithmic ;;
  i <- inverse_document_frequency genre corpus n smooth ;;
  Ok (res * i).

(** The two tf-idf vectors of [get_genre_weight], as the pair
    [(other_vector, our_vector)]. *)
Definition genre_vectors (our_user_ratings : vec)
    (genre_frequencies our_genre_frequencies : dict Z) (movies : catalog)
    (corpus : dict Z) (n : Z) (augmented boolean logarithmic smooth : bool)
  : result (vec * vec) :=
  for_each
    (fun st '(mid, _) =>
       m <- item mid movies ;;
       for_each
         (fun '(other_vector, our_vector) genre =>
            if contains genre our_vector then Ok (other_vector, our_vector)
            else
              x <- tf_idf genre_frequencies genre corpus n
                     augmented boolean logarithmic smooth ;;
              y <- tf_idf our_genre_frequencies genre corpus n
                     augmented boolean logarithmic smooth ;;
              Ok (set genre x other_vector, set genre y our_vector))
         (genres m) st)
    our_user_ratings ([], []).

(** The arguments are in the order of the [def]; [cosine] and [euclidean]
    are whatever the caller puts in the seventh and eighth place. *)
Definition get_genre_weight (our_user_ratings other_user_ratings : vec)
    (our_genre_frequencies : dict Z) (movies : catalog)
    (corpus : dict Z) (n : Z) (cosine euclidean : pyval)
    (augmented boolean logarithmic smooth : bool) : result R :=
  genre_frequencies <- get_genre_frequencies other_user_ratings movies ;;
  vs <- genre_vectors our_user_ratings genre_frequencies our_genre_frequencies
          movies corpus n augmented boolean logarithmic smooth ;;
  let other_vector := fst vs in
  let our_vector := snd vs in
  if truthy cosine then cosine_similarity our_vector other_vector
  else if truthy euclidean then euclidean_distance our_vector other_vector
  else
    our_avg <- pydiv (pysum (values our_vector)) (len our_vector) ;;
    other_avg <- pydiv (pysum (values other_vector)) (len other_vector) ;;
    pearson_correlation our_vector other_vector our_avg other_avg.

(* ================================================================= *)
(** ** Prediction *)

(** The first block of [get_rating] under [use_genres]. Its inner loop is
    [for mid, _ in other_user_ratings.items()], so it assigns the function's
    own variable [mid]; the state carries that variable with the corpus. *)
Definition build_corpus (mid : string) (movies : catalog)
    (all_other_user_ratings : list vec) : result (string * dict Z) :=
  for_each
    (fun st other_user_ratings =>
       r <- for_each
              (fun '(_, seen, corpus) '(mid', _) =>
                 m <- item mid' movies ;;
                 Ok (fold_left
                       (fun '(mid0, seen, corpus) genre =>
                          if set_mem genre seen then (mid0, seen, corpus)
                          else (mid0, set_add genre seen, incr genre corpus))
                       (genres m) (mid', seen, corpus)))
              other_user_ratings (fst st, [], snd st) ;;
       Ok (fst (fst r), snd r))
    all_other_user_ratings (mid, []).

Record genre_setup : Type := mkSetup {
  corpus_of : dict Z;
  n_of : Z;
  our_genre_frequencies_of : dict Z
}.

(** The choice of [weight] inside the loop of [get_rating]. The call of
    [get_genre_weight] passes ten positional arguments: [our_avg] and
    [other_avg] are the seventh and the eighth, [cosine] and [euclidean] the
    ninth and the tenth; [logarithmic] and [smooth] keep their defaults. *)
Definition neighbor_weight (movies : catalog) (our_user_ratings : vec)
    (our_avg : R) (setup : option genre_setup) (cosine euclidean : bool)
    (other_user_ratings : vec) (other_avg : R) : result R :=
  match setup with
  | Some g =>
      get_genre_weight our_user_ratings other_user_ratings
        (our_genre_frequencies_of g) movies (corpus_of g) (n_of g)
        (PyFloat our_avg) (PyFloat other_avg)
        cosine euclidean true true
  | None =>
      if cosine then cosine_similarity our_user_ratings other_user_ratings
      else if euclidean then
        euclidean_distance our_user_ratings other_user_ratings
      else
        pearson_correlation our_user_ratings other_user_ratings
          our_avg other_avg
  end.

(** The body of [for other_user_ratings in all_other_user_ratings], on the
    pair [(numer, denom)]. *)
Definition add_neighbor (mid : string) (movies : catalog)
    (our_user_ratings : vec) (our_avg : R) (setup : option genre_setup)
    (cosine euclidean : bool) (acc : R * R) (other_user_ratings : vec)
  : result (R * R) :=
  match get mid other_user_ratings with
  | None => Ok acc
  | Some r =>
      other_avg <- pydiv (pysum (values other_user_ratings))
                         (len other_user_ratings) ;;
      let diff := r - other_avg in
      weight <- neighbor_weight movies our_user_ratings our_avg setup
                  cosine euclidean other_user_ratings other_avg ;;
      Ok (fst acc + diff * weight, snd acc + Rabs weight)
  end.

Definition get_rating (mid : string) (movies : catalog)
    (our_user_ratings : vec) (all_other_user_ratings : list vec)
    (our_avg : R) (use_genres cosine euclidean : bool) : result R :=
  st <- (if use_genres then
           mc <- build_corpus mid movies all_other_user_ratings ;;
           let n := Z.of_nat (List.length all_other_user_ratings) in
           gf <- get_genre_frequencies our_user_ratings movies ;;
           Ok (fst mc, Some (mkSetup (snd mc) n gf))
         else Ok (mid, None)) ;;
  let mid := fst st in
  acc <- for_each
           (add_neighbor mid movies our_user_ratings our_avg (snd st)
              cosine euclidean)
           all_other_user_ratings (0, 0) ;;
  q <- pydiv (fst acc) (snd acc) ;;
  Ok (our_avg + q).

(* ================================================================= *)
(** ** Cross-validation *)

(** The running sums and counts of [calculate_rmse_for_each_distance_measure]. *)
Record tally : Type := mkTally {
  cosine_dif : R;
  pearson_dif : R;
  euclidean_dif : R;
  genre_dif : R;
  cosine_length : Z;
  pearson_length : Z;
  euclidean_length : Z;
  genre_length : Z
}.

Definition tally0 : tally := mkTally 0 0 0 0 0 0 0 0.

(** The rows of [ratings.csv] after the header, without the timestamp and
    with the rating already read as a number. *)
Definition row : Type := (string * string * R)%type.

(** One turn of the loop that fills [uid_to_ratings] and [mid_to_uids]. *)
Definition load_row (tables : dict vec * dict pyset) (r : row)
  : dict vec * dict pyset :=
  let '(uid, mid, rating) := r in
  (match get uid (fst tables) with
   | Some v => set uid (set mid rating v) (fst tables)
   | None => set uid [(mid, rating)] (fst tables)
   end,
   match get mid (snd tables) with
   | Some s => set mid (set_add uid s) (snd tables)
   | None => set mid [uid] (snd tables)
   end).

Definition load_ratings (rows : list row) : dict vec * dict pyset :=
  fold_left load_row rows ([], []).

(** One [try: ... except ZeroDivisionError: ...] block: the squared error is
    added, or the count is taken down by one; any other exception leaves the
    block. *)
Definition try_score (real_rating : R) (prediction : result R)
    (dif : R) (length : Z) : result (R * Z) :=
  match prediction with
  | Ok p => Ok (dif + (real_rating - p) ^ 2, length)
  | Raise ZeroDivisionError => Ok (dif, (length - 1)%Z)
  | Raise e => Raise e
  end.

Section CrossValidation.
(** The order in which a [set] hands out its elements is not fixed by the
    language. *)
Variable set_iter : pyset -> list string.
(** The successive values of [random()]. *)
Variable rand : nat -> R.

(** [[uid_to_ratings[uid] for uid in mid_to_uids[test_mid]]] *)
Definition neighbor_population (uid_to_ratings : dict vec)
    (mid_to_uids : dict pyset) (test_mid : string) : result (list vec) :=
  uids <- item test_mid mid_to_uids ;;
  for_each
    (fun acc uid => v <- item uid uid_to_ratings ;; Ok (acc ++ [v])%list)
    (set_iter uids) [].

(** The body of [for test_mid in current_user_ratings]. *)
Definition score_sample (movies : catalog) (uid_to_ratings : dict vec)
    (mid_to_uids : dict pyset) (current_user_ratings : vec)
    (t : tally) (test_mid : string) : result tally :=
  all_other_user_ratings <-
    neighbor_population uid_to_ratings mid_to_uids test_mid ;;
  real_rating <- item test_mid current_user_ratings ;;
  let test_ratings :=
    filter (fun '(mid, _) => negb (String.eqb mid test_mid))
      current_user_ratings in
  let rating_sum := pysum (values test_ratings) in
  our_avg <- pydiv rating_sum (len test_ratings) ;;
  let predict :=
    get_rating test_mid movies test_ratings all_other_user_ratings our_avg in
  p <- try_score real_rating (predict false false false)
         (pearson_dif t) (pearson_length t) ;;
  c <- try_score real_rating (predict false true false)
         (cosine_dif t) (cosine_length t) ;;
  e <- try_score real_rating (predict false false true)
         (euclidean_dif t) (euclidean_length t) ;;
  g <- try_score real_rating (predict true false false)
         (genre_dif t) (genre_length t) ;;
  Ok (mkTally (fst c) (fst p) (fst e) (fst g) (snd c) (snd p) (snd e) (snd g)).

(** The body of [for uid, current_user_ratings in uid_to_ratings.items()];
    the second component of the state counts the calls of [random()]. *)
Definition score_user (ratio : R) (movies : catalog)
    (uid_to_ratings : dict vec) (mid_to_uids : dict pyset)
    (st : tally * nat) (entry : string * vec) : result (tally * nat) :=
  let t := fst st in
  let draws := snd st in
  let current_user_ratings := snd entry in
  if (List.length current_user_ratings <=? 1)%nat then Ok (t, draws)
  else if Rle_dec ratio (rand draws) then Ok (t, S draws)
  else
    let k := Z.of_nat (List.length current_user_ratings) in
    let t1 :=
      mkTally (cosine_dif t) (pearson_dif t) (euclidean_dif t) (genre_dif t)
        (cosine_length t + k) (pearson_length t + k)
        (euclidean_length t + k) (genre_length t + k) in
    t2 <- for_each
            (score_sample movies uid_to_ratings mid_to_uids current_user_ratings)
            (keys current_user_ratings) t1 ;;
    Ok (t2, S draws).

(** [sqrt(dif / length)] *)
Definition rmse (dif : R) (length : Z) : result R :=
  q <- pydiv dif (IZR length) ;; pysqrt q.

Definition report (t : tally) : result (R * R * R * R) :=
  c <- rmse (cosine_dif t) (cosine_length t) ;;
  p <- rmse (pearson_dif t) (pearson_length t) ;;
  e <- rmse (euclidean_dif t) (euclidean_length t) ;;
  g <- rmse (genre_dif t) (genre_length t) ;;
  Ok (c, p, e, g).

(** The loop over the users, before the report. *)
Definition score_all (percent : Z) (movies : catalog) (rows : list row)
  : result (tally * nat) :=
  let ratio := IZR percent / 100 in
  let tables := load_ratings rows in
  for_each (score_user ratio movies (fst tables) (snd tables))
    (fst tables) (tally0, 0%nat).

Definition calculate_rmse_for_each_distance_measure (percent : Z)
    (movies : catalog) (rows : list row) : result (R * R * R * R) :=
  st <- score_all percent movies rows ;;
  report (fst st).
End CrossValidation.

(* ================================================================= *)
(** ** The serving path's view of the rating table *)

(** The state of the loop of [get_relevant_user_ratings]: the vectors kept so
    far, the requesting user's vector once seen, and the user being read. *)
Record scan : Type := mkScan {
  all_other_user_ratings_of : list vec;
  our_user_ratings_of : option vec;
  user_ratings_of : vec;
  current_uid_of : option string;
  insert_of : bool
}.

(** [if user_id == current_uid: ... elif insert: ...] *)
Definition flush (user_id : string) (s : scan) : scan :=
  match current_uid_of s with
  | Some u =>
      if String.eqb user_id u then
        mkScan (all_other_user_ratings_of s) (Some (user_ratings_of s))
          (user_ratings_of s) (current_uid_of s) (insert_of s)
      else if insert_of s then
        mkScan (all_other_user_ratings_of s ++ [user_ratings_of s])%list
          (our_user_ratings_of s) (user_ratings_of s) (current_uid_of s)
          (insert_of s)
      else s
  | None =>
      if insert_of s then
        mkScan (all_other_user_ratings_of s ++ [user_ratings_of s])%list
          (our_user_ratings_of s) (user_ratings_of s) (current_uid_of s)
          (insert_of s)
      else s
  end.

(** [movie_ids] is the one movie id that [get_predicted_ratings] passes, so
    [mid in movie_ids] is a substring test. *)
Definition is_substring (s t : string) : bool :=
  match index 0 s t with
  | Some _ => true
  | None => false
  end.

Definition get_relevant_user_ratings (user_id movie_ids : string)
    (rows : list row) : option vec * list vec :=
  let s :=
    fold_left
      (fun s '(uid, mid, rating) =>
         let s1 :=
           match current_uid_of s with
           | Some u =>
               if String.eqb u uid then s
               else
                 let f := flush user_id s in
                 mkScan (all_other_user_ratings_of f) (our_user_ratings_of f)
                   [] (Some uid) false
           | None =>
               let f := flush user_id s in
               mkScan (all_other_user_ratings_of f) (our_user_ratings_of f)
                 [] (Some uid) false
           end in
         mkScan (all_other_user_ratings_of s1) (our_user_ratings_of s1)
           (set mid rating (user_ratings_of s1)) (current_uid_of s1)
           (if is_substring mid movie_ids then true else insert_of s1))
      rows (mkScan [] None [] None false) in
  let f := flush user_id s in
  (our_user_ratings_of f, all_other_user_ratings_of f).

(* ================================================================= *)
(** ** Rounding for display *)

Module Stars.
Local Open Scope Q_scope.

(** [round(x)] with one argument: the nearest integer, a tie going to the
    even one. *)
Definition pyround (x : Q) : Z :=
  let f := Qfloor x in
  match Qcompare (x - inject_Z f) (1 # 2) with
  | Lt => f
  | Gt => (f + 1)%Z
  | Eq => if Z.even f then f else (f + 1)%Z
  end.

Definition round_stars (score : Q) : Q := inject_Z (pyround (score * 2)) / 2.
End Stars.

(* ================================================================= *)
(** ** The formulas of the specification *)

(** A finite sum. *)
Fixpoint total (l : list R) : R :=
  match l with
  | [] => 0
  | x :: l' => x + total l'
  end.

(** The pairs [(A[k], B[k])] for the keys [k] that [A] and [B] share. *)
Definition shared (A B : vec) : list (R * R) :=
  flat_map
    (fun '(k, a) =>
       match get k B with
       | Some b => [(a, b)]
       | None => []
       end)
    A.

(** [A] and [B] have no key in common. *)
Definition no_shared_key (A B : vec) : Prop :=
  forall k, In k (keys A) -> ~ In k (keys B).

(** Sum over the shared keys of [(A[k] - meanA) * (B[k] - meanB)]. *)
Definition cross_term (A B : vec) (meanA meanB : R) : R :=
  total (map (fun '(a, b) => (a - meanA) * (b - meanB)) (shared A B)).

(** Sum over all the keys of [A] of [(A[k] - mean)²]. *)
Definition sum_sq_dev (A : vec) (mean : R) : R :=
  total (map (fun a => (a - mean) ^ 2) (values A)).

(** Sum over all the keys of [A] of [A[k]²]: the square of its norm. *)
Definition sq_norm (A : vec) : R :=
  total (map (fun a => a ^ 2) (values A)).

(** The average of a vector over all its entries. *)
Definition average (v : vec) : R := total (values v) / len v.

(** The neighbours whose vector has the target item. *)
Definition contributors (mid : string) (population : list vec) : list vec :=
  filter (contains mid) population.

(** A neighbour's rating of the target item minus the neighbour's average. *)
Definition deviation (mid : string) (v : vec) : R :=
  match get mid v with
  | Some r => r - average v
  | None => 0
  end.

(** The similarity of the primary user and one neighbour under the two
    flags, outside genre mode. *)
Definition selected_measure (cosine euclidean : bool) (our : vec) (our_avg : R)
    (other : vec) : result R :=
  if cosine then cosine_similarity our other
  else if euclidean then euclidean_distance our other
  else pearson_correlation our other our_avg (average other).

(** The results of [f] on a list, or the first exception. *)
Fixpoint collect {A B : Type} (f : A -> result B) (l : list A)
  : result (list B) :=
  match l with
  | [] => Ok []
  | a :: l' => b <- f a ;; bs <- collect f l' ;; Ok (b :: bs)
  end.

(** Sum over the contributing neighbours of deviation times weight. *)
Definition weighted_deviations (mid : string) (cs : list vec) (ws : list R) : R :=
  total (map (fun '(c, w) => deviation mid c * w) (combine cs ws)).

(** Sum of the absolute weights. *)
Definition absolute_weights (ws : list R) : R := total (map Rabs ws).

(** What one mode's sum and count become after one held-out sample: a
    prediction that raises [ZeroDivisionError] takes the count down by one and
    leaves the sum; a prediction [p] adds its squared error to the sum and
    leaves the count. *)
Definition scored_as (real_rating : R) (prediction : result R)
    (before after : R * Z) : Prop :=
  (prediction = Raise ZeroDivisionError ->
   fst after = fst before /\ snd after = (snd before - 1)%Z) /\
  (forall p, prediction = Ok p ->
             fst after = fst before + (real_rating - p) ^ 2 /\
             snd after = snd before).

(** What the two tables of [load_ratings] have to do with each other: a
    user is in the set of every item of the user's vector, and every user of
    a set has a vector. *)
Definition tables_agree (tables : dict vec * dict pyset) : Prop :=
  (forall uid v mid,
      get uid (fst tables) = Some v -> In mid (keys v) ->
      exists s, get mid (snd tables) = Some s /\ In uid s) /\
  (forall mid s uid,
      get mid (snd tables) = Some s -> In uid s ->
      exists v, get uid (fst tables) = Some v).

(** Every item of the vector is in the catalog. *)
Definition catalog_covers (movies : catalog) (v : vec) : Prop :=
  forall mid, In mid (keys v) -> exists m, get mid movies = Some m.

(** Every count of the dictionary is positive. *)
Definition positive_counts (d : dict Z) : Prop :=
  forall k c, get k d = Some c -> (0 < c)%Z.

(* ================================================================= *)
(** ** Sample data *)

(** Two movies of one genre. *)
Definition one_genre_catalog : catalog :=
  [("k", mkMovie "K" ["G"]); ("j", mkMovie "J" ["G"])].

(** One user with two ratings, as rows of the rating table. *)
Definition lone_user_rows : list row := [("u", "k", 4); ("u", "j", 2)].

(** Two users who both rated [m1]. *)
Definition two_user_rows : list row :=
  [("u1", "m1", 5); ("u1", "m2", 3); ("u2", "m1", 4)].

(** A set handing out its elements in the order of insertion. *)
Definition insertion_order (s : pyset) : list string := s.

(* ================================================================= *)
(** ** The measures that are not dispatched *)

Definition bray_curtis_distance (our_vector other_vector : vec) : result R :=
  let acc :=
    fold_left
      (fun acc '(key, our_score) =>
         match get key other_vector with
         | Some y => (fst acc + Rabs (our_score - y), snd acc + Rabs (our_score + y))
         | None => acc
         end)
      our_vector (0, 0) in
  pydiv (fst acc) (snd acc).

(** [sum] adds the terms of the generator as they come, so the first term
    whose division fails ends the sum. *)
Definition canberra_distance (our_vector other_vector : vec) : result R :=
  for_each
    (fun acc '(key, our_score) =>
       match get key other_vector with
       | Some y =>
           q <- pydiv (Rabs (our_score - y)) (Rabs our_score + Rabs y) ;;
           Ok (acc + q)
       | None => Ok acc
       end)
    our_vector 0.

(** A vector as a [dict] has it: no key twice. *)
Definition unique_keys {V : Type} (d : dict V) : Prop := NoDup (keys d).


(** Every entry of the vector is above [0], as a star rating is. *)
Definition positive (A : vec) : Prop := forall a, In a (values A) -> 0 < a.


(* ================================================================= *)
(** ** Genres of a vector *)

(** The genre labels of the rated movies, one for every movie and label, in
    the order of the vector; a movie missing from the catalog gives none. *)
Definition genre_tokens (movies : catalog) (v : vec) : list string :=
  flat_map
    (fun '(mid, _) =>
       match get mid movies with
       | Some m => genres m
       | None => []
       end)
    v.

(** The user of the vector rated a movie that has the genre. *)
Definition has_genre (movies : catalog) (genre : string) (v : vec) : bool :=
  set_mem genre (genre_tokens movies v).

(** Some item of the vector is missing from the catalog. *)
Definition some_movie_missing (movies : catalog) (v : vec) : Prop :=
  exists mid, In mid (keys v) /\ get mid movies = None.

(** The corpus loop of [get_rating] without the variable [mid]: what the
    genres of one movie, of one vector and of a population do to the set
    [seen] and to the corpus. *)
Definition see_genres (gs : list string) (sc : pyset * dict Z)
  : pyset * dict Z :=
  fold_left
    (fun sc genre =>
       if set_mem genre (fst sc) then sc
       else (set_add genre (fst sc), incr genre (snd sc)))
    gs sc.

Definition see_vector (movies : catalog) (v : vec) (sc : pyset * dict Z)
  : result (pyset * dict Z) :=
  for_each
    (fun sc '(mid, _) => m <- item mid movies ;; Ok (see_genres (genres m) sc))
    v sc.

Definition document_frequencies (movies : catalog) (population : list vec)
  : result (dict Z) :=
  for_each
    (fun corpus v => sc <- see_vector movies v ([], corpus) ;; Ok (snd sc))
    population [].

(** The items of all the vectors of a population, in order. *)
Definition all_items (population : list vec) : list string :=
  List.concat (map keys population).

(* ================================================================= *)
(** ** The two rating tables *)

(** The user has a vector in the table and the item is a key of it. *)
Definition rated_in (uid_to_ratings : dict vec) (uid mid : string) : Prop :=
  exists v, get uid uid_to_ratings = Some v /\ In mid (keys v).

(** The item has a set in the index and the user is a member of it. *)
Definition indexed_in (mid_to_uids : dict pyset) (uid mid : string) : Prop :=
  exists s, get mid mid_to_uids = Some s /\ In uid s.

(** What holds of the two tables once the rows [done] have been read. *)
Definition tables_after (done : list row) (tables : dict vec * dict pyset)
  : Prop :=
  unique_keys (fst tables) /\
  unique_keys (snd tables) /\
  (forall uid v, get uid (fst tables) = Some v -> unique_keys v /\ v <> []) /\
  (forall mid s, get mid (snd tables) = Some s -> NoDup s /\ s <> []) /\
  (forall uid mid,
      rated_in (fst tables) uid mid <-> exists r, In (uid, mid, r) done) /\
  (forall uid mid,
      indexed_in (snd tables) uid mid <-> exists r, In (uid, mid, r) done) /\
  (forall uid v mid r,
      get uid (fst tables) = Some v -> get mid v = Some r ->
      In (uid, mid, r) done).

(* ================================================================= *)
(** ** Bounds on the running sums and counts *)

(** No sum is negative and no count is below [c]. *)
Definition tally_bounds (c : Z) (t : tally) : Prop :=
  0 <= cosine_dif t /\ 0 <= pearson_dif t /\
  0 <= euclidean_dif t /\ 0 <= genre_dif t /\
  (c <= cosine_length t)%Z /\ (c <= pearson_length t)%Z /\
  (c <= euclidean_length t)%Z /\ (c <= genre_length t)%Z.

(** Every movie that a row rates is in the catalog. *)
Definition catalog_complete (movies : catalog) (rows : list row) : Prop :=
  forall uid mid r, In (uid, mid, r) rows -> exists m, get mid movies = Some m.

(** The iteration over a set goes through its members, whatever the order. *)
Definition iterates_members (set_iter : pyset -> list string) : Prop :=
  forall s u, In u (set_iter s) <-> In u s.

(** No user has rated two different movies. *)
Definition single_ratings (rows : list row) : Prop :=
  forall uid mid mid' r r',
    In (uid, mid, r) rows -> In (uid, mid', r') rows -> mid = mid'.

(** [random()] draws from the interval from 0 to 1, 1 left out. *)
Definition unit_draws (rand : nat -> R) : Prop :=
  forall n, 0 <= rand n < 1.

(* ================================================================= *)
(** ** What the serving path keeps of the rating table *)

(** A vector read from rows of the user [uid]: not empty, one entry for a
    key, and every entry a row of that user. *)
Definition vector_of (rows : list row) (uid : string) (v : vec) : Prop :=
  v <> [] /\ unique_keys v /\
  forall mid r, get mid v = Some r -> In (uid, mid, r) rows.

(** The vector has an item that [mid in movie_ids] accepts. *)
Definition relevant (movie_ids : string) (v : vec) : Prop :=
  exists mid, In mid (keys v) /\ is_substring mid movie_ids = true.

(** What holds of the loop's state once the rows [done] have been read. *)
Definition scan_after (user_id movie_ids : string) (done : list row) (s : scan)
  : Prop :=
  match current_uid_of s with
  | None => done = [] /\ s = mkScan [] None [] None false
  | Some u =>
      vector_of done u (user_ratings_of s) /\
      (insert_of s = true -> relevant movie_ids (user_ratings_of s)) /\
      (forall v, In v (all_other_user_ratings_of s) ->
                 relevant movie_ids v /\
                 exists uid, uid <> user_id /\ vector_of done uid v) /\
      (forall v, our_user_ratings_of s = Some v -> vector_of done user_id v) /\
      (our_user_ratings_of s = None -> u <> user_id ->
       forall mid r, ~ In (user_id, mid, r) done)
  end.

(** Every row read so far of another user, with an item that
    [mid in movie_ids] accepts, is in a vector already kept or in the vector
    being read, which will be kept. *)
Definition kept_after (user_id movie_ids : string) (done : list row) (s : scan)
  : Prop :=
  forall uid mid r,
    In (uid, mid, r) done -> uid <> user_id ->
    is_substring mid movie_ids = true ->
    (exists v, In v (all_other_user_ratings_of s) /\
               In mid (keys v) /\ vector_of done uid v) \/
    (current_uid_of s = Some uid /\ insert_of s = true /\
     In mid (keys (user_ratings_of s))).

(* ================================================================= *)
(** ** Reading the catalog *)

(** A row of [movies.csv] after the header: movie id, title, genres. *)
Definition movie_row : Type := (string * string * string)%type.

(** [s.split(sep)] for a separator of one character. *)
Fixpoint split (sep : ascii) (s : string) : list string :=
  match s with
  | EmptyString => [EmptyString]
  | String c s' =>
      if Ascii.eqb c sep then EmptyString :: split sep s'
      else
        match split sep s' with
        | piece :: pieces => String c piece :: pieces
        | [] => [String c EmptyString]
        end
  end.

(** [x in l] for a list of strings. *)
Definition list_mem (x : string) (l : list string) : bool :=
  existsb (String.eqb x) l.

(** The dictionary comprehensions of [get_movies_from_ids]; with [get_all]
    the argument [movie_ids] is not read ([main] passes [None] for it). *)
Definition get_movies_from_ids (movie_ids : list string) (get_all : bool)
    (rows : list movie_row) : catalog :=
  fold_left
    (fun d '(mid, title, genres) =>
       if (if get_all then true else list_mem mid movie_ids)
       then set mid (mkMovie title (split "|" genres)) d
       else d)
    rows [].

(** [sep.join(pieces)], to state that [split] loses nothing. *)
Fixpoint join (sep : ascii) (pieces : list string) : string :=
  match pieces with
  | [] => EmptyString
  | [piece] => piece
  | piece :: rest => (piece ++ String sep (join sep rest))%string
  end.

(** The character does not occur in the string. *)
Fixpoint free_of (c : ascii) (s : string) : Prop :=
  match s with
  | EmptyString => True
  | String c' s' => c' <> c /\ free_of c s'
  end.

(** The rows that [get_movies_from_ids] takes. *)
Definition taken (movie_ids : list string) (get_all : bool) (mid : string)
  : Prop :=
  get_all = true \/ In mid movie_ids.

(* ================================================================= *)
(** ** Movie ids from IMDb and TMDb ids *)

(** A row of [links.csv] after the header: movie id, IMDb id, TMDb id. *)
Definition link_row : Type := (string * string * string)%type.

(** ['0' * n] *)
Fixpoint zeros (n : nat) : string :=
  match n with
  | O => EmptyString
  | S n' => String "0" (zeros n')
  end.

(** [s.zfill(width)]: zeros go in front, after a leading sign. The ids are
    strings of ASCII characters, whose length is their number of bytes. *)
Definition zfill (width : nat) (s : string) : string :=
  let n := String.length s in
  if (width <=? n)%nat then s
  else
    match s with
    | String c rest =>
        if Ascii.eqb c "+" || Ascii.eqb c "-"
        then String c (zeros (width - n) ++ rest)
        else (zeros (width - n) ++ s)%string
    | EmptyString => zeros (width - n)
    end.

Definition get_movie_ids_from_webdb_ids (ids : list string) (imdb tmdb : bool)
    (links : list link_row) : list string :=
  if tmdb then
    map (fun '(mid, _, _) => mid)
      (filter (fun '(_, _, tmdb_id) => list_mem tmdb_id ids) links)
  else if imdb then
    let ids := map (zfill 7) ids in
    map (fun '(mid, _, _) => mid)
      (filter (fun '(_, imdb_id, _) => list_mem imdb_id ids) links)
  else ids.


(* ================================================================= *)
(** * Properties *)

(** ** Numbers and exceptions *)

Lemma is_zero_true (x : R) : x = 0 -> is_zero x = true.
Proof. intros H. unfold is_zero. destruct (Req_dec_T x 0); [reflexivity | contradiction]. Qed.

Lemma is_zero_false (x : R) : x <> 0 -> is_zero x = false.
Proof. intros H. unfold is_zero. destruct (Req_dec_T x 0); [contradiction | reflexivity]. Qed.

Lemma is_neg_false (x : R) : 0 <= x -> is_neg x = false.
Proof. intros H. unfold is_neg. destruct (Rlt_dec x 0); [lra | reflexivity]. Qed.

Lemma is_pos_true (x : R) : 0 < x -> is_pos x = true.
Proof. intros H. unfold is_pos. destruct (Rlt_dec 0 x); [reflexivity | contradiction]. Qed.

Lemma pydiv_ok (x y : R) : y <> 0 -> pydiv x y = Ok (x / y).
Proof. intros H. unfold pydiv. now rewrite is_zero_false. Qed.

Lemma pydiv_zero (x y : R) : y = 0 -> pydiv x y = Raise ZeroDivisionError.
Proof. intros H. unfold pydiv. now rewrite is_zero_true. Qed.

Lemma pydiv_cases (x y : R) :
  (y = 0 /\ pydiv x y = Raise ZeroDivisionError) \/
  (y <> 0 /\ pydiv x y = Ok (x / y)).
Proof.
  destruct (Req_dec_T y 0) as [E | N].
  - left. split; [assumption | now apply pydiv_zero].
  - right. split; [assumption | now apply pydiv_ok].
Qed.

Lemma pysqrt_ok (x : R) : 0 <= x -> pysqrt x = Ok (sqrt x).
Proof. intros H. unfold pysqrt. now rewrite is_neg_false. Qed.

Lemma pylog_ok (x : R) : 0 < x -> pylog x = Ok (ln x).
Proof. intros H. unfold pylog. now rewrite is_pos_true. Qed.

Lemma sqrt_nonzero (x : R) : 0 <= x -> x <> 0 -> sqrt x <> 0.
Proof. intros H N E. apply N. now apply sqrt_eq_0. Qed.

(** ** Sums *)

Lemma fold_left_Rplus (l : list R) (a : R) : fold_left Rplus l a = a + total l.
Proof.
  revert a. induction l as [| x l IH]; intros a; simpl.
  - lra.
  - rewrite IH. lra.
Qed.

Lemma pysum_total (l : list R) : pysum l = total l.
Proof. unfold pysum. rewrite fold_left_Rplus. lra. Qed.


Lemma total_squares_nonneg (f : R -> R) (l : list R) :
  0 <= total (map (fun a => f a ^ 2) l).
Proof.
  induction l as [| x l IH]; cbn [map total]; [lra |].
  pose proof (pow2_ge_0 (f x)). lra.
Qed.

Lemma sum_sq_dev_nonneg (A : vec) (m : R) : 0 <= sum_sq_dev A m.
Proof. apply (total_squares_nonneg (fun a => a - m)). Qed.

Lemma sq_norm_nonneg (A : vec) : 0 <= sq_norm A.
Proof. apply (total_squares_nonneg (fun a => a)). Qed.

Lemma map_values {B : Type} (f : R -> B) (A : vec) :
  map (fun '(_, rating) => f rating) A = map f (values A).
Proof.
  unfold values. rewrite map_map. apply map_ext. now intros [k a].
Qed.

(** ** The loops over the shared keys *)

Lemma accumulate_shared_from (f : R -> R -> R) (A B : vec) (a0 : R) :
  fold_left
    (fun acc '(key, x) =>
       match get key B with
       | Some y => acc + f x y
       | None => acc
       end) A a0
  = a0 + total (map (fun '(a, b) => f a b) (shared A B)).
Proof.
  revert a0. induction A as [| [k a] A IH]; intros a0; simpl.
  - lra.
  - rewrite IH. unfold shared. simpl. fold (shared A B).
    destruct (get k B) as [b |]; simpl; lra.
Qed.

Lemma accumulate_shared_total (f : R -> R -> R) (A B : vec) :
  accumulate_shared f A B = total (map (fun '(a, b) => f a b) (shared A B)).
Proof. unfold accumulate_shared. rewrite accumulate_shared_from. lra. Qed.

Lemma shared_terms_shared (g : R -> R -> R) (A B : vec) :
  shared_terms g A B = map (fun '(a, b) => g a b) (shared A B).
Proof.
  unfold shared_terms, shared.
  induction A as [| [k a] A IH]; simpl; [reflexivity |].
  rewrite map_app, IH. now destruct (get k B).
Qed.

Lemma get_none_not_in {V : Type} (k : string) (d : dict V) :
  get k d = None <-> ~ In k (keys d).
Proof.
  induction d as [| [k' v] d IH]; simpl.
  - tauto.
  - destruct (String.eqb_spec k k') as [E | N].
    + subst. split; [discriminate | intros H; exfalso; apply H; now left].
    + rewrite IH. split.
      * intros H [E | I]; [now apply N | now apply H].
      * intros H I. apply H. now right.
Qed.

Lemma shared_nil (A B : vec) : no_shared_key A B -> shared A B = [].
Proof.
  unfold no_shared_key, shared. induction A as [| [k a] A IH]; intros H; simpl.
  - reflexivity.
  - assert (G : get k B = None).
    { apply get_none_not_in. apply H. simpl. now left. }
    rewrite G. simpl. apply IH. intros k' I. apply H. simpl. now right.
Qed.

(** ** Pearson correlation *)

Lemma pearson_correlation_unfold (A B : vec) (meanA meanB : R) :
  pearson_correlation A B meanA meanB =
  if is_zero (sum_sq_dev A meanA * sum_sq_dev B meanB) then Ok 0
  else s <- pysqrt (sum_sq_dev A meanA * sum_sq_dev B meanB) ;;
       pydiv (cross_term A B meanA meanB) s.
Proof.
  unfold pearson_correlation, sum_sq_dev, cross_term.
  rewrite accumulate_shared_total, !pysum_total.
  rewrite (map_values (fun r => (r - meanA) ^ 2)).
  rewrite (map_values (fun r => (r - meanB) ^ 2)).
  reflexivity.
Qed.

Lemma pearson_correlation_cases (A B : vec) (meanA meanB : R) :
  (sum_sq_dev A meanA * sum_sq_dev B meanB <> 0 /\
   pearson_correlation A B meanA meanB =
   Ok (cross_term A B meanA meanB / sqrt (sum_sq_dev A meanA * sum_sq_dev B meanB)))
  \/ (sum_sq_dev A meanA * sum_sq_dev B meanB = 0 /\
      pearson_correlation A B meanA meanB = Ok 0).
Proof.
  rewrite pearson_correlation_unfold.
  set (D := sum_sq_dev A meanA * sum_sq_dev B meanB).
  assert (HD : 0 <= D).
  { apply Rmult_le_pos; apply sum_sq_dev_nonneg. }
  destruct (Req_dec_T D 0) as [E | N].
  - right. split; [assumption |]. now rewrite is_zero_true.
  - left. split; [assumption |].
    rewrite is_zero_false by assumption.
    rewrite pysqrt_ok by assumption. simpl.
    apply pydiv_ok. now apply sqrt_nonzero.
Qed.

(** C4. [pearson_correlation] never raises. With [D] the product of the two
    sums of squared deviations, each taken over all the keys of its vector,
    the result is the cross term over the shared keys divided by [sqrt D]
    when [D] is not zero, and [0] when [D] is zero. *)
Theorem pearson_correlation_formula (A B : vec) (meanA meanB : R) :
  let D := sum_sq_dev A meanA * sum_sq_dev B meanB in
  (D <> 0 /\
   pearson_correlation A B meanA meanB = Ok (cross_term A B meanA meanB / sqrt D))
  \/ (D = 0 /\ pearson_correlation A B meanA meanB = Ok 0).
Proof. intros D. apply pearson_correlation_cases. Qed.

(** ** Cosine similarity and Euclidean distance *)

(** The dot product over the shared keys. *)
Lemma cosine_similarity_unfold (A B : vec) :
  cosine_similarity A B =
  pydiv (total (map (fun '(a, b) => a * b) (shared A B)))
        (sqrt (sq_norm A) * sqrt (sq_norm B)).
Proof.
  unfold cosine_similarity, sq_norm.
  rewrite accumulate_shared_total, !pysum_total.
  rewrite !(map_values (fun r => r ^ 2)).
  rewrite !pysqrt_ok by apply (total_squares_nonneg (fun a => a)).
  reflexivity.
Qed.

Lemma euclidean_distance_unfold (A B : vec) :
  euclidean_distance A B =
  Ok (sqrt (total (map (fun '(a, b) => (a - b) ^ 2) (shared A B)))).
Proof.
  unfold euclidean_distance.
  rewrite pysum_total, shared_terms_shared.
  apply pysqrt_ok.
  induction (shared A B) as [| [a b] l IH]; cbn [map total]; [lra |].
  pose proof (pow2_ge_0 (a - b)). lra.
Qed.

Lemma norms_product_zero (A B : vec) :
  sqrt (sq_norm A) * sqrt (sq_norm B) = 0 <-> sq_norm A = 0 \/ sq_norm B = 0.
Proof.
  pose proof (sq_norm_nonneg A) as HA. pose proof (sq_norm_nonneg B) as HB.
  split.
  - intros H. apply Rmult_integral in H.
    destruct H as [H | H]; [left | right]; now apply sqrt_eq_0.
  - intros [H | H]; rewrite H, sqrt_0; lra.
Qed.

(** C5, as amended. For two vectors with no key in common: the Pearson
    correlation is [0] and does not raise; the Euclidean distance is [0]; the
    cosine similarity is [0] when both norms are non-zero, and raises
    [ZeroDivisionError] exactly when one of the two norms is zero. *)
Theorem measures_without_shared_keys (A B : vec) (meanA meanB : R) :
  no_shared_key A B ->
  pearson_correlation A B meanA meanB = Ok 0 /\
  euclidean_distance A B = Ok 0 /\
  ((sq_norm A <> 0 /\ sq_norm B <> 0 /\ cosine_similarity A B = Ok 0) \/
   ((sq_norm A = 0 \/ sq_norm B = 0) /\
    cosine_similarity A B = Raise ZeroDivisionError)).
Proof.
  intros H. pose proof (shared_nil A B H) as S. repeat split.
  - destruct (pearson_correlation_cases A B meanA meanB) as [[N E] | [_ E]];
      [| exact E].
    rewrite E. unfold cross_term. rewrite S. simpl. f_equal. lra.
  - rewrite euclidean_distance_unfold, S. simpl. now rewrite sqrt_0.
  - rewrite cosine_similarity_unfold, S. simpl.
    destruct (pydiv_cases 0 (sqrt (sq_norm A) * sqrt (sq_norm B)))
      as [[Z E] | [N E]]; rewrite E.
    + right. split; [now apply norms_product_zero | reflexivity].
    + left. repeat split.
      * intros C. apply N. apply norms_product_zero. now left.
      * intros C. apply N. apply norms_product_zero. now right.
      * f_equal. lra.
Qed.

Lemma measures_without_shared_keys_witness :
  no_shared_key [("a", 1)] [("b", 1)] /\
  pearson_correlation [("a", 1)] [("b", 1)] 1 1 = Ok 0 /\
  euclidean_distance [("a", 1)] [("b", 1)] = Ok 0.
Proof.
  assert (H : no_shared_key [("a", 1)] [("b", 1)]).
  { intros k [E | []] [E' | []]. subst. discriminate. }
  split; [exact H |].
  destruct (measures_without_shared_keys [("a", 1)] [("b", 1)] 1 1 H)
    as (P & E & _).
  split; assumption.
Defined.

(** C5, as stated, fails: the vectors [{a: 1}] and [{b: 1}] share no key, yet
    neither the Pearson correlation nor the cosine similarity raises; both
    return [0]. *)
Lemma disjoint_vectors_do_not_raise :
  no_shared_key [("a", 1)] [("b", 1)] /\
  pearson_correlation [("a", 1)] [("b", 1)] 1 1 = Ok 0 /\
  pearson_correlation [("a", 1)] [("b", 1)] 0 0 = Ok 0 /\
  cosine_similarity [("a", 1)] [("b", 1)] = Ok 0 /\
  pearson_correlation [("a", 1)] [("b", 1)] 1 1 <> Raise ZeroDivisionError /\
  cosine_similarity [("a", 1)] [("b", 1)] <> Raise ZeroDivisionError.
Proof.
  assert (H : no_shared_key [("a", 1)] [("b", 1)]).
  { intros k [E | []] [E' | []]. subst. discriminate. }
  assert (C : cosine_similarity [("a", 1)] [("b", 1)] = Ok 0).
  { rewrite cosine_similarity_unfold. unfold sq_norm. simpl.
    replace (1 * (1 * 1) + 0) with 1 by lra. rewrite sqrt_1.
    rewrite pydiv_ok by lra. f_equal. lra. }
  assert (P : forall m, pearson_correlation [("a", 1)] [("b", 1)] m m = Ok 0).
  { intros m.
    destruct (pearson_correlation_cases [("a", 1)] [("b", 1)] m m)
      as [[_ E] | [_ E]]; rewrite E; [| reflexivity].
    unfold cross_term. simpl. f_equal. lra. }
  repeat split; try assumption; try apply P.
  - rewrite P. discriminate.
  - rewrite C. discriminate.
Qed.

(** ** Inverse document frequency *)

Lemma ln_le_compat (x y : R) : 0 < x -> x <= y -> ln x <= ln y.
Proof.
  intros Hx [L | E].
  - left. now apply ln_increasing.
  - subst. lra.
Qed.

Lemma idf_smooth_present (genre : string) (corpus : dict Z) (n total : Z) :
  get genre corpus = Some total -> (0 <= n)%Z -> (0 < total)%Z ->
  inverse_document_frequency genre corpus n true
  = Ok (ln (IZR (1 + n) / IZR total)).
Proof.
  intros G Hn Ht. unfold inverse_document_frequency. rewrite G.
  assert (T : 0 < IZR total) by now apply IZR_lt.
  assert (N : 0 < IZR (1 + n)) by (apply IZR_lt; lia).
  rewrite pydiv_ok by lra. simpl.
  apply pylog_ok. now apply Rdiv_lt_0_compat.
Qed.

(** C7, as amended. For a population size [n >= 0] and a corpus whose counts
    are positive: a genre absent from the corpus has smoothed idf [0] and no
    exception; and among the genres present in the corpus the smoothed idf
    does not increase with the document frequency. *)
Theorem idf_smooth_monotone_on_corpus (corpus : dict Z) (n : Z) :
  (0 <= n)%Z ->
  (forall g d, get g corpus = Some d -> (0 < d)%Z) ->
  (forall g, get g corpus = None ->
             inverse_document_frequency g corpus n true = Ok 0) /\
  (forall g1 g2 d1 d2,
      get g1 corpus = Some d1 -> get g2 corpus = Some d2 -> (d1 <= d2)%Z ->
      exists i1 i2,
        inverse_document_frequency g1 corpus n true = Ok i1 /\
        inverse_document_frequency g2 corpus n true = Ok i2 /\
        i2 <= i1).
Proof.
  intros Hn Hpos. split.
  - intros g G. unfold inverse_document_frequency. now rewrite G.
  - intros g1 g2 d1 d2 G1 G2 L.
    pose proof (Hpos _ _ G1) as P1. pose proof (Hpos _ _ G2) as P2.
    exists (ln (IZR (1 + n) / IZR d1)), (ln (IZR (1 + n) / IZR d2)).
    repeat split; try (apply idf_smooth_present; assumption).
    assert (T1 : 0 < IZR d1) by now apply IZR_lt.
    assert (T2 : 0 < IZR d2) by now apply IZR_lt.
    assert (N : 0 < IZR (1 + n)) by (apply IZR_lt; lia).
    assert (L' : IZR d1 <= IZR d2) by now apply IZR_le.
    apply ln_le_compat.
    + now apply Rdiv_lt_0_compat.
    + unfold Rdiv. apply Rmult_le_compat_l; [lra |].
      now apply Rinv_le_contravar.
Qed.

Lemma idf_smooth_monotone_on_corpus_witness :
  exists i1 i2,
    inverse_document_frequency "Drama" [("Drama", 1%Z); ("Comedy", 2%Z)] 2 true
    = Ok i1 /\
    inverse_document_frequency "Comedy" [("Drama", 1%Z); ("Comedy", 2%Z)] 2 true
    = Ok i2 /\
    i2 <= i1.
Proof.
  assert (Hpos : forall g d,
             get g [("Drama", 1%Z); ("Comedy", 2%Z)] = Some d -> (0 < d)%Z).
  { intros g d. simpl.
    destruct (String.eqb g "Drama"); [intros [= <-]; lia |].
    destruct (String.eqb g "Comedy"); [intros [= <-]; lia | discriminate]. }
  apply (proj2 (idf_smooth_monotone_on_corpus
                  [("Drama", 1%Z); ("Comedy", 2%Z)] 2 ltac:(lia) Hpos)
           "Drama" "Comedy" 1%Z 2%Z); [reflexivity | reflexivity | lia].
Defined.

(** C7, as stated, fails. With the corpus [{Drama: 1}] and [n = 1], the genre
    [Comedy] is absent, so its document frequency is [0], which is below the
    document frequency [1] of [Drama]; but its idf is [0], which is strictly
    below [ln 2], the idf of [Drama]. *)
Lemma idf_absent_genre_breaks_monotonicity :
  (count_of "Comedy" [("Drama", 1%Z)] <= count_of "Drama" [("Drama", 1%Z)])%Z /\
  inverse_document_frequency "Comedy" [("Drama", 1%Z)] 1 true = Ok 0 /\
  inverse_document_frequency "Drama" [("Drama", 1%Z)] 1 true = Ok (ln (2 / 1)) /\
  0 < ln (2 / 1).
Proof.
  split; [unfold count_of; simpl; lia |]. split; [reflexivity |]. split.
  - rewrite (idf_smooth_present "Drama" [("Drama", 1%Z)] 1 1)
      by (reflexivity || lia).
    reflexivity.
  - rewrite <- ln_1. apply ln_increasing; lra.
Qed.

(** ** Rounding to half stars *)

Lemma Qfloor_unique (x : Q) (k : Z) :
  (inject_Z k <= x)%Q -> (x < inject_Z (k + 1))%Q -> Qfloor x = k.
Proof.
  intros L U. apply Z.le_antisymm.
  - apply Z.lt_succ_r. unfold Z.succ. rewrite Zlt_Qlt.
    apply Qle_lt_trans with x; [apply Qfloor_le | exact U].
  - rewrite <- (Qfloor_Z k) at 1. now apply Qfloor_resp_le.
Qed.

Lemma pyround_integer (x : Q) (k : Z) : (x == inject_Z k)%Q -> Stars.pyround x = k.
Proof.
  intros E. unfold Stars.pyround.
  assert (F : Qfloor x = k) by (rewrite E; apply Qfloor_Z).
  rewrite F.
  assert (C : Qcompare (x - inject_Z k) (1 # 2) = Lt).
  { apply -> Qlt_alt. rewrite E.
    setoid_replace (inject_Z k - inject_Z k)%Q with 0%Q by ring. reflexivity. }
  now rewrite C.
Qed.

Lemma pyround_tie (x : Q) (k : Z) :
  (x == inject_Z k + (1 # 2))%Q ->
  Stars.pyround x = if Z.even k then k else (k + 1)%Z.
Proof.
  intros E. unfold Stars.pyround.
  assert (F : Qfloor x = k).
  { apply Qfloor_unique; rewrite E.
    - rewrite <- (Qplus_0_r (inject_Z k)) at 1.
      apply Qplus_le_r. discriminate.
    - rewrite inject_Z_plus. apply Qplus_lt_r. reflexivity. }
  rewrite F.
  assert (C : Qcompare (x - inject_Z k) (1 # 2) = Eq).
  { apply -> Qeq_alt. rewrite E. ring. }
  now rewrite C.
Qed.

(** C9. The result of [round_stars] is an integer number of halves, and
    rounding a rounded score gives the same score again. *)
Theorem round_stars_half_multiple_idempotent (x : Q) :
  (exists k : Z, (Stars.round_stars x == inject_Z k * (1 # 2))%Q) /\
  Stars.round_stars (Stars.round_stars x) = Stars.round_stars x.
Proof.
  split.
  - exists (Stars.pyround (x * 2)). unfold Stars.round_stars. field.
  - unfold Stars.round_stars.
    now rewrite (pyround_integer
                   (inject_Z (Stars.pyround (x * 2)) / 2 * 2)
                   (Stars.pyround (x * 2))) by field.
Qed.

(** C10. A score exactly half way between two neighbouring half-star values,
    [k/2 + 1/4], is rounded to the neighbour that is an even number of
    halves: [k/2] when [k] is even and [(k+1)/2] when [k] is odd. So [0.25]
    gives [0] and [0.75] gives [1]; and [0.25] is not rounded up to [0.5]. *)
Theorem round_stars_ties_to_even :
  (forall k : Z,
      Stars.round_stars (inject_Z k / 2 + (1 # 4))
      = (inject_Z (if Z.even k then k else (k + 1)%Z) / 2)%Q) /\
  (Stars.round_stars (1 # 4) == 0)%Q /\
  (Stars.round_stars (3 # 4) == 1)%Q /\
  ~ (Stars.round_stars (1 # 4) == 1 # 2)%Q.
Proof.
  split; [| split; [| split]].
  - intros k. unfold Stars.round_stars. f_equal. f_equal.
    apply pyround_tie. field.
  - reflexivity.
  - reflexivity.
  - discriminate.
Qed.

(** ** The prediction outside genre mode *)

Lemma get_some_length {V : Type} (k : string) (d : dict V) (v : V) :
  get k d = Some v -> len d <> 0.
Proof.
  destruct d as [| p d]; [discriminate |]. intros _. unfold len.
  apply not_0_INR. discriminate.
Qed.

Lemma neighbor_average (mid : string) (other : vec) (r : R) :
  get mid other = Some r ->
  pydiv (pysum (values other)) (len other) = Ok (average other).
Proof.
  intros G. rewrite pysum_total. apply pydiv_ok. now apply get_some_length with mid r.
Qed.

Lemma neighbor_weight_plain (movies : catalog) (our : vec) (our_avg : R)
    (cosine euclidean : bool) (other : vec) :
  neighbor_weight movies our our_avg None cosine euclidean other (average other)
  = selected_measure cosine euclidean our our_avg other.
Proof. reflexivity. Qed.

Lemma collect_raise {A B : Type} (f : A -> result B) (l : list A) (e : exn) :
  collect f l = Raise e -> exists a, In a l /\ f a = Raise e.
Proof.
  induction l as [| a l IH]; simpl; [discriminate |].
  destruct (f a) as [b | e'] eqn:F; simpl.
  - destruct (collect f l) as [bs | e'']; simpl; [discriminate |].
    intros [= <-]. destruct (IH eq_refl) as (a' & I & E).
    exists a'. split; [now right | assumption].
  - intros [= <-]. exists a. split; [now left | assumption].
Qed.

Lemma neighbors_loop (mid : string) (movies : catalog) (our : vec) (our_avg : R)
    (cosine euclidean : bool) (population : list vec) (acc : R * R) :
  for_each (add_neighbor mid movies our our_avg None cosine euclidean)
    population acc
  = ws <- collect (selected_measure cosine euclidean our our_avg)
            (contributors mid population) ;;
    Ok (fst acc + weighted_deviations mid (contributors mid population) ws,
        snd acc + absolute_weights ws).
Proof.
  revert acc. induction population as [| v population IH]; intros [numer denom].
  - simpl. unfold weighted_deviations, absolute_weights. simpl.
    f_equal. f_equal; lra.
  - cbn [for_each]. unfold contributors. cbn [filter].
    fold (contributors mid population). unfold add_neighbor at 1.
    destruct (get mid v) as [r |] eqn:G.
    + assert (Hc : contains mid v = true) by (unfold contains; now rewrite G).
      rewrite Hc, (neighbor_average mid v r G). cbn [bind].
      rewrite neighbor_weight_plain. cbn [collect].
      destruct (selected_measure cosine euclidean our our_avg v) as [w | e];
        cbn [bind]; [| reflexivity].
      rewrite IH.
      destruct (collect (selected_measure cosine euclidean our our_avg)
                  (contributors mid population)) as [ws | e];
        cbn [bind]; [| reflexivity].
      unfold weighted_deviations, absolute_weights, deviation.
      cbn [combine map total fst snd]. rewrite G.
      f_equal. f_equal; lra.
    + assert (Hc : contains mid v = false) by (unfold contains; now rewrite G).
      rewrite Hc. cbn [bind]. apply IH.
Qed.

Lemma cosine_similarity_raise (A B : vec) (e : exn) :
  cosine_similarity A B = Raise e ->
  e = ZeroDivisionError /\ (sq_norm A = 0 \/ sq_norm B = 0).
Proof.
  rewrite cosine_similarity_unfold.
  destruct (pydiv_cases (total (map (fun '(a, b) => a * b) (shared A B)))
              (sqrt (sq_norm A) * sqrt (sq_norm B))) as [[Z E] | [N E]];
    rewrite E; [| discriminate].
  intros [= <-]. split; [reflexivity | now apply norms_product_zero].
Qed.

Lemma selected_measure_raise (cosine euclidean : bool) (our : vec) (our_avg : R)
    (other : vec) (e : exn) :
  selected_measure cosine euclidean our our_avg other = Raise e ->
  cosine = true /\ e = ZeroDivisionError /\ (sq_norm our = 0 \/ sq_norm other = 0).
Proof.
  unfold selected_measure. destruct cosine.
  - intros H. split; [reflexivity |]. now apply cosine_similarity_raise.
  - destruct euclidean.
    + rewrite euclidean_distance_unfold. discriminate.
    + destruct (pearson_correlation_cases our other our_avg (average other))
        as [[_ E] | [_ E]]; rewrite E; discriminate.
Qed.

(** C3, as amended. Outside genre mode, with the weights taken over the
    neighbours whose vector has the target item, in the order of the
    population: when every weight is defined, [get_rating] returns
    [our_avg + (sum of deviation * weight) / (sum of |weight|)] if the sum of
    the absolute weights is not zero, and raises [ZeroDivisionError] if it is
    zero. A weight is undefined only under the cosine flag, when the primary
    vector or a contributing neighbour has norm zero; [get_rating] then raises
    [ZeroDivisionError] as well. *)
Theorem get_rating_formula (mid : string) (movies : catalog) (our : vec)
    (population : list vec) (our_avg : R) (cosine euclidean : bool) :
  let cs := contributors mid population in
  let r := get_rating mid movies our population our_avg false cosine euclidean in
  (exists ws,
      collect (selected_measure cosine euclidean our our_avg) cs = Ok ws /\
      ((absolute_weights ws <> 0 /\
        r = Ok (our_avg + weighted_deviations mid cs ws / absolute_weights ws))
       \/ (absolute_weights ws = 0 /\ r = Raise ZeroDivisionError)))
  \/ (cosine = true /\
      (sq_norm our = 0 \/ exists c, In c cs /\ sq_norm c = 0) /\
      r = Raise ZeroDivisionError).
Proof.
  intros cs r. subst r. unfold get_rating. cbn [bind fst snd].
  rewrite neighbors_loop. fold cs.
  destruct (collect (selected_measure cosine euclidean our our_avg) cs)
    as [ws | e] eqn:C; cbn [bind fst snd].
  - left. exists ws. split; [reflexivity |].
    replace (0 + weighted_deviations mid cs ws)
      with (weighted_deviations mid cs ws) by lra.
    replace (0 + absolute_weights ws) with (absolute_weights ws) by lra.
    destruct (pydiv_cases (weighted_deviations mid cs ws) (absolute_weights ws))
      as [[Z E] | [N E]]; rewrite E; cbn [bind].
    + right. split; [assumption | reflexivity].
    + left. split; [assumption | reflexivity].
  - right. destruct (collect_raise _ _ _ C) as (c & I & F).
    destruct (selected_measure_raise _ _ _ _ _ _ F) as (Hc & -> & [Z | Z]).
    + repeat split; [assumption | now left].
    + repeat split; [assumption |]. right. now exists c.
Qed.

(** ** The prediction in genre mode *)

Lemma tf_idf_log_smooth (gf : dict Z) (genre : string) (corpus : dict Z)
    (n total : Z) :
  get genre corpus = Some total -> (0 < total)%Z -> (0 <= n)%Z ->
  (0 <= count_of genre gf)%Z ->
  tf_idf gf genre corpus n false false true true
  = Ok (ln (IZR (1 + count_of genre gf)) * ln (IZR (1 + n) / IZR total)).
Proof.
  intros G T N C. unfold tf_idf, term_frequency.
  rewrite pylog_ok by (apply IZR_lt; lia). cbn [bind].
  now rewrite (idf_smooth_present genre corpus n total G N T).
Qed.

Lemma cosine_similarity_single (g : string) (x y : R) :
  0 < x -> 0 < y -> cosine_similarity [(g, x)] [(g, y)] = Ok 1.
Proof.
  intros X Y. rewrite cosine_similarity_unfold. unfold sq_norm, shared.
  cbn [flat_map get values map snd total app]. rewrite String.eqb_refl.
  cbn [map total app].
  replace (x ^ 2 + 0) with (x * x) by ring.
  replace (y ^ 2 + 0) with (y * y) by ring.
  rewrite !sqrt_square by lra.
  rewrite pydiv_ok by nra. f_equal. field. lra.
Qed.

Lemma pearson_correlation_single (g : string) (x y : R) :
  pearson_correlation [(g, x)] [(g, y)] x y = Ok 0.
Proof.
  destruct (pearson_correlation_cases [(g, x)] [(g, y)] x y)
    as [[N _] | [_ E]]; [| exact E].
  exfalso. apply N. unfold sum_sq_dev. simpl. ring.
Qed.

Lemma ln_pos (x : R) : 1 < x -> 0 < ln x.
Proof. intros H. rewrite <- ln_1. apply ln_increasing; lra. Qed.

(** In genre mode the measure inside [get_genre_weight] is chosen by the
    primary user's average, which stands where [cosine] is expected: when the
    average is not zero the cosine similarity is taken, whatever the flags;
    the flags arrive as [augmented] and [boolean]. *)
Lemma neighbor_weight_genre (movies : catalog) (our other : vec)
    (our_avg other_avg : R) (g : genre_setup) (cosine euclidean : bool) :
  our_avg <> 0 ->
  neighbor_weight movies our our_avg (Some g) cosine euclidean other other_avg
  = get_genre_weight our other (our_genre_frequencies_of g) movies
      (corpus_of g) (n_of g) (PyBool true) (PyBool false)
      cosine euclidean true true.
Proof.
  intros H. unfold neighbor_weight, get_genre_weight. cbn [truthy].
  now rewrite is_zero_false.
Qed.

Ltac run :=
  cbn -[pydiv pysum pysqrt pylog Rabs pow IZR Rplus Rmult Rminus Rdiv ln
        tf_idf cosine_similarity pearson_correlation euclidean_distance].

Ltac tf_idf_values :=
  rewrite !tf_idf_log_smooth with (total := 1%Z)
    by (reflexivity || (unfold count_of; simpl; lia)).

Ltac tf_idf_positive :=
  apply Rmult_lt_0_compat; apply ln_pos; unfold count_of; simpl; lra.

(** C2 (the code departs from it). The primary user rated [k] with [4], the
    neighbour rated [k] with [1] and [j] with [3], both movies have the one
    genre [G], and no measure flag is set. The weight that [get_rating]
    computes in genre mode is [1], the cosine similarity of the two tf-idf
    vectors; with the flags in their own places [get_genre_weight] gives the
    Pearson correlation of the two vectors, which is [0]. *)
Theorem genre_weight_takes_cosine_without_flag :
  neighbor_weight one_genre_catalog [("k", 4)] 4
    (Some (mkSetup [("G", 1%Z)] 1 [("G", 1%Z)])) false false
    [("k", 1); ("j", 3)] 2 = Ok 1 /\
  get_genre_weight [("k", 4)] [("k", 1); ("j", 3)] [("G", 1%Z)]
    one_genre_catalog [("G", 1%Z)] 1 (PyBool false) (PyBool false)
    false false true true = Ok 0 /\
  get_genre_weight [("k", 4)] [("k", 1); ("j", 3)] [("G", 1%Z)]
    one_genre_catalog [("G", 1%Z)] 1 (PyBool true) (PyBool false)
    false false true true = Ok 1.
Proof.
  assert (C : get_genre_weight [("k", 4)] [("k", 1); ("j", 3)] [("G", 1%Z)]
                one_genre_catalog [("G", 1%Z)] 1 (PyBool true) (PyBool false)
                false false true true = Ok 1).
  { unfold get_genre_weight. run. tf_idf_values. run.
    apply cosine_similarity_single; tf_idf_positive. }
  split; [| split; [| exact C]].
  - rewrite neighbor_weight_genre by lra. exact C.
  - unfold get_genre_weight. run. tf_idf_values. run.
    unfold pysum, len. cbn [fold_left List.length INR].
    rewrite !pydiv_ok by lra. cbn [bind].
    match goal with
    | |- pearson_correlation [(_, ?a)] [(_, ?b)] ?x ?y = _ =>
        replace x with a by (field; lra); replace y with b by (field; lra)
    end.
    apply pearson_correlation_single.
Qed.

(** C3, as stated, fails in two ways.
    - In genre mode the loop that builds the corpus assigns the variable
      [mid]. Here no neighbour has the target item [m], so the sum of the
      absolute weights over the neighbours that have it is zero; yet
      [get_rating] returns [5]: it works with [j], the last item of the last
      neighbour.
    - Under the cosine flag a weight itself can raise. Here the first
      neighbour that has [m] has a weight that is not zero, the second has
      norm zero, and [get_rating] raises [ZeroDivisionError]. *)
Lemma get_rating_formula_fails :
  (contributors "m" [[("k", 1); ("j", 3)]] = [] /\
   get_rating "m" one_genre_catalog [("k", 4)] [[("k", 1); ("j", 3)]] 4
     true false false = Ok 5) /\
  (contributors "m" [[("m", 1); ("a", 1)]; [("m", 0)]]
   = [[("m", 1); ("a", 1)]; [("m", 0)]] /\
   (exists w, cosine_similarity [("a", 1)] [("m", 1); ("a", 1)] = Ok w /\ 0 < w) /\
   get_rating "m" [] [("a", 1)] [[("m", 1); ("a", 1)]; [("m", 0)]] 1
     false true false = Raise ZeroDivisionError).
Proof.
  split; [split; [reflexivity |] | split; [reflexivity |]].
  - unfold get_rating. run. tf_idf_values. run.
    rewrite is_zero_false by lra. cbn [negb].
    rewrite cosine_similarity_single by tf_idf_positive.
    unfold pysum. cbn [fold_left bind].
    rewrite pydiv_ok by lra. cbn [bind fst snd].
    rewrite Rabs_R1. rewrite pydiv_ok by lra. cbn [bind]. f_equal. field.
  - assert (S2 : 0 < sqrt 2) by (apply sqrt_lt_R0; lra).
    assert (W : cosine_similarity [("a", 1)] [("m", 1); ("a", 1)]
                = Ok (1 / sqrt 2)).
    { rewrite cosine_similarity_unfold. unfold sq_norm, shared.
      cbn [flat_map get values map snd fst total app String.eqb Ascii.eqb Bool.eqb].
      replace (1 ^ 2 + (1 ^ 2 + 0)) with 2 by lra.
      replace (1 ^ 2 + 0) with 1 by lra. rewrite sqrt_1.
      rewrite pydiv_ok by lra. f_equal. field. lra. }
    split.
    + eexists. split; [exact W |]. apply Rdiv_lt_0_compat; lra.
    + unfold get_rating. cbn [bind fst snd]. rewrite neighbors_loop.
      cbn [contributors filter contains get String.eqb Ascii.eqb Bool.eqb collect].
      unfold selected_measure at 1. rewrite W. cbn [bind].
      unfold selected_measure. rewrite (cosine_similarity_unfold _ [("m", 0)]).
      rewrite pydiv_zero; [reflexivity |].
      unfold sq_norm at 2. simpl. replace (0 * (0 * 1) + 0) with 0 by lra.
      rewrite sqrt_0. lra.
Qed.

(** ** Cross-validation: users that are skipped *)

(** C8. A user with one rating or none leaves the sums, the counts and the
    number of random draws as they were, whatever the ratio and the draws. *)
Theorem short_vectors_are_skipped (set_iter : pyset -> list string)
    (rand : nat -> R) (ratio : R) (movies : catalog)
    (uid_to_ratings : dict vec) (mid_to_uids : dict pyset)
    (t : tally) (draws : nat) (uid : string) (current_user_ratings : vec) :
  (List.length current_user_ratings <= 1)%nat ->
  score_user set_iter rand ratio movies uid_to_ratings mid_to_uids
    (t, draws) (uid, current_user_ratings)
  = Ok (t, draws).
Proof.
  intros H. unfold score_user. cbn [fst snd].
  apply Nat.leb_le in H. now rewrite H.
Qed.

Lemma short_vectors_are_skipped_witness :
  score_user insertion_order (fun _ => 0) 1 one_genre_catalog
    [("u", [("k", 4)])] [("k", ["u"])] (tally0, 0%nat) ("u", [("k", 4)])
  = Ok (tally0, 0%nat).
Proof.
  apply (short_vectors_are_skipped insertion_order (fun _ => 0) 1
           one_genre_catalog [("u", [("k", 4)])] [("k", ["u"])]
           tally0 0 "u" [("k", 4)]).
  simpl. lia.
Defined.

(** ** Cross-validation: the neighbour population *)

Lemma get_set_same {V : Type} (k : string) (v : V) (d : dict V) :
  get k (set k v d) = Some v.
Proof.
  induction d as [| [k' v'] d IH]; simpl.
  - now rewrite String.eqb_refl.
  - destruct (String.eqb_spec k k') as [E | N]; simpl.
    + now rewrite String.eqb_refl.
    + destruct (String.eqb_spec k k'); [contradiction | exact IH].
Qed.

Lemma get_set_other {V : Type} (k k' : string) (v : V) (d : dict V) :
  k' <> k -> get k' (set k v d) = get k' d.
Proof.
  intros N. induction d as [| [k0 v0] d IH]; simpl.
  - destruct (String.eqb_spec k' k); [contradiction | reflexivity].
  - destruct (String.eqb_spec k k0) as [E | N0]; simpl.
    + subst k0. destruct (String.eqb_spec k' k); [contradiction | reflexivity].
    + destruct (String.eqb_spec k' k0); [reflexivity | exact IH].
Qed.

Lemma in_keys_get {V : Type} (k : string) (d : dict V) :
  In k (keys d) <-> exists v, get k d = Some v.
Proof.
  destruct (get k d) as [v |] eqn:G.
  - split; [intros _; now exists v |]. intros _.
    destruct (in_dec string_dec k (keys d)) as [I | NI]; [exact I |].
    apply get_none_not_in in NI. congruence.
  - split; [| intros [v E]; discriminate].
    intros I. apply get_none_not_in in G. contradiction.
Qed.

Lemma in_set_add (x y : string) (s : pyset) :
  In y (set_add x s) <-> y = x \/ In y s.
Proof.
  unfold set_add. destruct (set_mem x s) eqn:M.
  - split; [now right |]. intros [-> | I]; [| exact I].
    unfold set_mem in M. apply existsb_exists in M.
    destruct M as (z & I & E). apply String.eqb_eq in E. now subst.
  - rewrite in_app_iff. simpl. intuition.
Qed.

Lemma keys_set {V : Type} (k k' : string) (v : V) (d : dict V) :
  In k' (keys (set k v d)) <-> k' = k \/ In k' (keys d).
Proof.
  rewrite !in_keys_get. destruct (string_dec k' k) as [E | N].
  - subst. rewrite get_set_same. split; [now left | intros _; now exists v].
  - rewrite (get_set_other k k' v d N). split; [now right |].
    intros [E | H]; [contradiction | exact H].
Qed.

Lemma load_row_agree (tables : dict vec * dict pyset) (r : row) :
  tables_agree tables -> tables_agree (load_row tables r).
Proof.
  destruct tables as [U M]. destruct r as [[uid mid] rating].
  intros [HA HB]. cbn [fst snd] in HA, HB.
  unfold load_row. cbn [fst snd].
  set (v' := match get uid U with
             | Some v => set mid rating v
             | None => [(mid, rating)]
             end).
  set (s' := match get mid M with
             | Some s => set_add uid s
             | None => [uid]
             end).
  assert (EU : match get uid U with
               | Some v => set uid (set mid rating v) U
               | None => set uid [(mid, rating)] U
               end = set uid v' U) by (subst v'; now destruct (get uid U)).
  assert (EM : match get mid M with
               | Some s => set mid (set_add uid s) M
               | None => set mid [uid] M
               end = set mid s' M) by (subst s'; now destruct (get mid M)).
  rewrite EU, EM. clear EU EM.
  assert (Iu : In uid s').
  { subst s'. destruct (get mid M); [apply in_set_add; now left | now left]. }
  assert (Is : forall s u, get mid M = Some s -> In u s -> In u s').
  { intros s u G I. subst s'. rewrite G. apply in_set_add. now right. }
  split; cbn [fst snd].
  - intros uid0 v0 mid0 G I.
    destruct (string_dec uid0 uid) as [-> | Nu].
    + rewrite get_set_same in G. injection G as <-.
      destruct (string_dec mid0 mid) as [-> | Nm].
      * exists s'. split; [apply get_set_same | exact Iu].
      * rewrite get_set_other by exact Nm.
        subst v'. destruct (get uid U) as [v |] eqn:GU.
        -- apply keys_set in I. destruct I as [E | I]; [contradiction |].
           exact (HA uid v mid0 GU I).
        -- simpl in I. destruct I as [E | []]. now subst.
    + rewrite get_set_other in G by exact Nu.
      destruct (HA uid0 v0 mid0 G I) as (s0 & G0 & I0).
      destruct (string_dec mid0 mid) as [-> | Nm].
      * exists s'. split; [apply get_set_same | exact (Is s0 uid0 G0 I0)].
      * exists s0. split; [| exact I0].
        now rewrite get_set_other by exact Nm.
  - intros mid0 s0 u G I.
    assert (K : forall w, (exists v, get w U = Some v) ->
                          exists v, get w (set uid v' U) = Some v).
    { intros w [v Gw]. destruct (string_dec w uid) as [-> | Nw].
      - exists v'. apply get_set_same.
      - exists v. now rewrite get_set_other by exact Nw. }
    destruct (string_dec mid0 mid) as [-> | Nm].
    + rewrite get_set_same in G. injection G as <-.
      subst s'. destruct (get mid M) as [s |] eqn:GM.
      * apply in_set_add in I. destruct I as [-> | I].
        -- exists v'. apply get_set_same.
        -- apply K. exact (HB mid s u GM I).
      * destruct I as [<- | []]. exists v'. apply get_set_same.
    + rewrite get_set_other in G by exact Nm.
      apply K. exact (HB mid0 s0 u G I).
Qed.

Lemma load_ratings_agree (rows : list row) : tables_agree (load_ratings rows).
Proof.
  unfold load_ratings.
  assert (G : forall tables, tables_agree tables ->
                             tables_agree (fold_left load_row rows tables)).
  { induction rows as [| r rows IH]; intros tables H; simpl; [exact H |].
    apply IH. now apply load_row_agree. }
  apply G. split; cbn [fst snd]; intros; discriminate.
Qed.

Lemma lookups_succeed (uid_to_ratings : dict vec) (uids : list string)
    (acc : list vec) :
  (forall u, In u uids -> exists v, get u uid_to_ratings = Some v) ->
  exists population,
    for_each (fun acc uid => v <- item uid uid_to_ratings ;; Ok (acc ++ [v])%list)
      uids acc = Ok population /\
    (forall v, In v acc -> In v population) /\
    (forall u v, In u uids -> get u uid_to_ratings = Some v -> In v population).
Proof.
  revert acc. induction uids as [| u uids IH]; intros acc H.
  - exists acc. simpl. split; [reflexivity |]. split; [auto | intros ? ? []].
  - destruct (H u (or_introl eq_refl)) as [v G].
    cbn [for_each]. unfold item at 1. rewrite G. cbn [bind].
    destruct (IH (acc ++ [v])%list) as (population & E & Hacc & Hu).
    { intros w I. apply H. now right. }
    exists population. split; [exact E |]. split.
    + intros w I. apply Hacc. apply in_or_app. now left.
    + intros w vw [<- | I] Gw.
      * assert (vw = v) by congruence. subst. apply Hacc.
        apply in_or_app. right. now left.
      * now apply Hu with w.
Qed.

(** A user who rated an item is a member of the neighbour population of that
    item, with the full vector, whoever the user is: the target user too. *)
Lemma rater_among_neighbors (set_iter : pyset -> list string) (rows : list row)
    (uid test_mid : string) (v : vec) :
  (forall s u, In u (set_iter s) <-> In u s) ->
  get uid (fst (load_ratings rows)) = Some v ->
  In test_mid (keys v) ->
  exists population,
    neighbor_population set_iter (fst (load_ratings rows))
      (snd (load_ratings rows)) test_mid = Ok population /\
    In v population.
Proof.
  intros Hs G I. destruct (load_ratings_agree rows) as [HA HB].
  destruct (HA uid v test_mid G I) as (s & Gs & Iu).
  unfold neighbor_population, item at 1. rewrite Gs. cbn [bind].
  destruct (lookups_succeed (fst (load_ratings rows)) (set_iter s) [])
    as (population & E & _ & Hu).
  { intros u Iu'. exact (HB test_mid s u Gs (proj1 (Hs s u) Iu')). }
  exists population. split; [exact E |].
  apply Hu with uid; [exact (proj2 (Hs s uid) Iu) | exact G].
Qed.

(** C1 (the code departs from it). With the rows of [two_user_rows], the
    neighbour population that cross-validation builds for the user [u1] and
    the held-out item [m1] starts with the full vector of [u1], the held-out
    rating included; [get_relevant_user_ratings], on the serving path, keeps
    the requesting user's vector out of the population. *)
Theorem own_vector_among_neighbors :
  load_ratings two_user_rows
  = ([("u1", [("m1", 5); ("m2", 3)]); ("u2", [("m1", 4)])],
     [("m1", ["u1"; "u2"]); ("m2", ["u1"])]) /\
  neighbor_population insertion_order (fst (load_ratings two_user_rows))
    (snd (load_ratings two_user_rows)) "m1"
  = Ok [[("m1", 5); ("m2", 3)]; [("m1", 4)]] /\
  get_relevant_user_ratings "u1" "m1" two_user_rows
  = (Some [("m1", 5); ("m2", 3)], [[("m1", 4)]]).
Proof. repeat split. Qed.

(** ** Genre mode with a complete catalog *)

Lemma for_each_invariant {A S : Type} (Inv : S -> Prop)
    (body : S -> A -> result S) (l : list A) (s : S) :
  (forall s a, In a l -> Inv s -> exists s', body s a = Ok s' /\ Inv s') ->
  Inv s -> exists s', for_each body l s = Ok s' /\ Inv s'.
Proof.
  revert s. induction l as [| a l IH]; intros s H I; cbn [for_each].
  - now exists s.
  - destruct (H s a (or_introl eq_refl) I) as (s1 & E & I1).
    rewrite E. cbn [bind]. apply IH; [| exact I1].
    intros s2 b Ib. apply H. now right.
Qed.

Lemma for_each_raise {A S : Type} (P : exn -> Prop)
    (body : S -> A -> result S) (l : list A) (s : S) (e : exn) :
  (forall s a e, In a l -> body s a = Raise e -> P e) ->
  for_each body l s = Raise e -> P e.
Proof.
  revert s. induction l as [| a l IH]; intros s H; cbn [for_each].
  - discriminate.
  - destruct (body s a) as [s1 | e1] eqn:E; cbn [bind].
    + apply IH. intros s2 b e2 Ib. apply H. now right.
    + intros [= <-]. apply (H s a e1); [now left | exact E].
Qed.

Lemma incr_positive (k : string) (d : dict Z) :
  positive_counts d -> positive_counts (incr k d).
Proof.
  intros H k' c. unfold incr.
  destruct (get k d) as [c0 |] eqn:G;
    (destruct (string_dec k' k) as [-> | N];
     [rewrite get_set_same; intros [= <-] | rewrite get_set_other by exact N;
                                            apply H]).
  - pose proof (H k c0 G). lia.
  - lia.
Qed.

Lemma fold_incr_positive (gs : list string) (d : dict Z) :
  positive_counts d ->
  positive_counts (fold_left (fun gf genre => incr genre gf) gs d).
Proof.
  revert d. induction gs as [| g gs IH]; intros d H; simpl; [exact H |].
  apply IH. now apply incr_positive.
Qed.

Lemma count_of_nonneg (k : string) (d : dict Z) :
  positive_counts d -> (0 <= count_of k d)%Z.
Proof.
  intros H. unfold count_of. destruct (get k d) as [c |] eqn:G; [| lia].
  pose proof (H k c G). lia.
Qed.

Lemma get_genre_frequencies_ok (v : vec) (movies : catalog) :
  catalog_covers movies v ->
  exists gf, get_genre_frequencies v movies = Ok gf /\ positive_counts gf.
Proof.
  intros C. unfold get_genre_frequencies.
  apply for_each_invariant with (Inv := positive_counts).
  - intros gf [mid r] I P.
    destruct (C mid) as [m G].
    { unfold keys. apply in_map_iff. now exists (mid, r). }
    unfold item. rewrite G. cbn [bind]. eexists. split; [reflexivity |].
    now apply fold_incr_positive.
  - intros k c. discriminate.
Qed.

Lemma corpus_genres_positive (gs : list string) (mid : string) (seen : pyset)
    (corpus : dict Z) :
  positive_counts corpus ->
  positive_counts
    (snd (fold_left
            (fun '(mid0, seen, corpus) genre =>
               if set_mem genre seen then (mid0, seen, corpus)
               else (mid0, set_add genre seen, incr genre corpus))
            gs (mid, seen, corpus))).
Proof.
  revert seen corpus. induction gs as [| g gs IH]; intros seen corpus H; simpl.
  - exact H.
  - destruct (set_mem g seen); apply IH; [exact H | now apply incr_positive].
Qed.

Lemma build_corpus_ok (mid : string) (movies : catalog) (population : list vec) :
  (forall v, In v population -> catalog_covers movies v) ->
  exists mc, build_corpus mid movies population = Ok mc /\
             positive_counts (snd mc).
Proof.
  intros C. unfold build_corpus.
  apply for_each_invariant with (Inv := fun st => positive_counts (snd st)).
  - intros st v Iv P.
    destruct (for_each_invariant
                (fun r : string * pyset * dict Z => positive_counts (snd r))
                (fun '(_, seen, corpus) '(mid', _) =>
                   m <- item mid' movies ;;
                   Ok (fold_left
                         (fun '(mid0, seen, corpus) genre =>
                            if set_mem genre seen then (mid0, seen, corpus)
                            else (mid0, set_add genre seen, incr genre corpus))
                         (genres m) (mid', seen, corpus)))
                v (fst st, [], snd st)) as (r & E & Pr).
    + intros [[mid0 seen] corpus] [mid' x] I Pc. cbn [snd] in Pc.
      destruct (C v Iv mid') as [m G].
      { unfold keys. apply in_map_iff. now exists (mid', x). }
      unfold item. rewrite G. cbn [bind]. eexists. split; [reflexivity |].
      now apply corpus_genres_positive.
    + exact P.
    + rewrite E. cbn [bind]. eexists. split; [reflexivity | exact Pr].
  - intros k c. discriminate.
Qed.

Lemma tf_idf_ok (gf : dict Z) (genre : string) (corpus : dict Z) (n : Z) :
  positive_counts gf -> positive_counts corpus -> (0 <= n)%Z ->
  exists x, tf_idf gf genre corpus n false false true true = Ok x.
Proof.
  intros Pg Pc N. unfold tf_idf, term_frequency.
  pose proof (count_of_nonneg genre gf Pg) as C.
  rewrite pylog_ok by (apply IZR_lt; lia). cbn [bind].
  destruct (get genre corpus) as [total |] eqn:G.
  - rewrite (idf_smooth_present genre corpus n total G N (Pc genre total G)).
    cbn [bind]. now eexists.
  - unfold inverse_document_frequency. rewrite G. cbn [bind]. now eexists.
Qed.

Lemma genre_vectors_ok (our : vec) (gf our_gf : dict Z) (movies : catalog)
    (corpus : dict Z) (n : Z) :
  catalog_covers movies our ->
  positive_counts gf -> positive_counts our_gf -> positive_counts corpus ->
  (0 <= n)%Z ->
  exists vs,
    genre_vectors our gf our_gf movies corpus n false false true true = Ok vs.
Proof.
  intros C Pg Po Pc N. unfold genre_vectors.
  destruct (for_each_invariant (fun _ : vec * vec => True)
              (fun st '(mid, _) =>
                 m <- item mid movies ;;
                 for_each
                   (fun '(other_vector, our_vector) genre =>
                      if contains genre our_vector
                      then Ok (other_vector, our_vector)
                      else
                        x <- tf_idf gf genre corpus n false false true true ;;
                        y <- tf_idf our_gf genre corpus n false false true true ;;
                        Ok (set genre x other_vector, set genre y our_vector))
                   (genres m) st)
              our ([], [])) as (vs & E & _); [| exact I | now exists vs].
  intros st [mid r] Im _.
  destruct (C mid) as [m G].
  { unfold keys. apply in_map_iff. now exists (mid, r). }
  unfold item. rewrite G. cbn [bind].
  apply for_each_invariant; [| exact I].
  intros [ov uv] genre _ _.
  destruct (contains genre uv); [now eexists |].
  destruct (tf_idf_ok gf genre corpus n Pg Pc N) as [x ->].
  destruct (tf_idf_ok our_gf genre corpus n Po Pc N) as [y ->].
  cbn [bind]. now eexists.
Qed.

Lemma pydiv_raise (x y : R) (e : exn) :
  pydiv x y = Raise e -> e = ZeroDivisionError.
Proof.
  destruct (pydiv_cases x y) as [[_ E] | [_ E]]; rewrite E;
    [now intros [= <-] | discriminate].
Qed.

Lemma pearson_correlation_ok (A B : vec) (meanA meanB : R) :
  exists w, pearson_correlation A B meanA meanB = Ok w.
Proof.
  destruct (pearson_correlation_cases A B meanA meanB) as [[_ E] | [_ E]];
    rewrite E; now eexists.
Qed.

Lemma get_genre_weight_raise (our other : vec) (our_gf : dict Z)
    (movies : catalog) (corpus : dict Z) (n : Z) (cosine euclidean : pyval)
    (e : exn) :
  catalog_covers movies our -> catalog_covers movies other ->
  positive_counts our_gf -> positive_counts corpus -> (0 <= n)%Z ->
  get_genre_weight our other our_gf movies corpus n cosine euclidean
    false false true true = Raise e ->
  e = ZeroDivisionError.
Proof.
  intros Co Cn Po Pc N. unfold get_genre_weight.
  destruct (get_genre_frequencies_ok other movies Cn) as (gf & -> & Pg).
  cbn [bind].
  destruct (genre_vectors_ok our gf our_gf movies corpus n Co Pg Po Pc N)
    as (vs & ->).
  cbn [bind].
  destruct (truthy cosine).
  - intros H. now apply cosine_similarity_raise in H.
  - destruct (truthy euclidean).
    + rewrite euclidean_distance_unfold. discriminate.
    + destruct (pydiv (pysum (values (snd vs))) (len (snd vs)))
        as [a |] eqn:E1; cbn [bind];
        [| intros [= <-]; now apply pydiv_raise in E1].
      destruct (pydiv (pysum (values (fst vs))) (len (fst vs)))
        as [b |] eqn:E2; cbn [bind];
        [| intros [= <-]; now apply pydiv_raise in E2].
      destruct (pearson_correlation_ok (snd vs) (fst vs) a b) as [w ->].
      discriminate.
Qed.

(** With every rated movie in the catalog, the prediction in genre mode, as
    cross-validation asks for it, raises nothing but [ZeroDivisionError]. *)
Lemma get_rating_genre_raise (mid : string) (movies : catalog) (our : vec)
    (population : list vec) (our_avg : R) (e : exn) :
  catalog_covers movies our ->
  (forall v, In v population -> catalog_covers movies v) ->
  get_rating mid movies our population our_avg true false false = Raise e ->
  e = ZeroDivisionError.
Proof.
  intros Co Cp. unfold get_rating.
  destruct (build_corpus_ok mid movies population Cp) as (mc & -> & Pc).
  cbn [bind].
  destruct (get_genre_frequencies_ok our movies Co) as (gf & -> & Pg).
  cbn [bind fst snd].
  destruct (for_each
              (add_neighbor (fst mc) movies our our_avg
                 (Some (mkSetup (snd mc)
                          (Z.of_nat (List.length population)) gf))
                 false false)
              population (0, 0)) as [acc | e'] eqn:L; cbn [bind].
  - destruct (pydiv (fst acc) (snd acc)) as [q |] eqn:D; cbn [bind];
      [discriminate | intros [= <-]; now apply pydiv_raise in D].
  - intros [= <-]. revert L.
    apply (for_each_raise (fun x => x = ZeroDivisionError)).
    intros acc v e0 Iv. unfold add_neighbor.
    destruct (get (fst mc) v) as [r |]; [| discriminate].
    destruct (pydiv (pysum (values v)) (len v)) as [a |] eqn:D; cbn [bind];
      [| intros [= <-]; now apply pydiv_raise in D].
    unfold neighbor_weight.
    cbn [our_genre_frequencies_of corpus_of n_of].
    destruct (get_genre_weight our v gf movies (snd mc)
                (Z.of_nat (List.length population))
                (PyFloat our_avg) (PyFloat a) false false true true)
      as [w | e1] eqn:W; cbn [bind]; [discriminate |].
    intros [= ->].
    apply (get_genre_weight_raise our v gf movies (snd mc)
             (Z.of_nat (List.length population))
             (PyFloat our_avg) (PyFloat a) e0 Co (Cp v Iv) Pg Pc
             ltac:(lia) W).
Qed.

(** ** Cross-validation: one held-out sample *)

Lemma get_rating_plain (mid : string) (movies : catalog) (our : vec)
    (population : list vec) (our_avg : R) (cosine euclidean : bool) :
  get_rating mid movies our population our_avg false cosine euclidean
  = ws <- collect (selected_measure cosine euclidean our our_avg)
            (contributors mid population) ;;
    q <- pydiv (weighted_deviations mid (contributors mid population) ws)
               (absolute_weights ws) ;;
    Ok (our_avg + q).
Proof.
  unfold get_rating. cbn [bind fst snd]. rewrite neighbors_loop.
  destruct (collect (selected_measure cosine euclidean our our_avg)
              (contributors mid population)) as [ws | e];
    cbn [bind fst snd]; [| reflexivity].
  now rewrite !Rplus_0_l.
Qed.

Lemma get_rating_plain_raise (mid : string) (movies : catalog) (our : vec)
    (population : list vec) (our_avg : R) (cosine euclidean : bool) (e : exn) :
  get_rating mid movies our population our_avg false cosine euclidean = Raise e ->
  e = ZeroDivisionError.
Proof.
  rewrite get_rating_plain.
  destruct (collect (selected_measure cosine euclidean our our_avg)
              (contributors mid population)) as [ws | e'] eqn:C; cbn [bind].
  - destruct (pydiv_cases
                (weighted_deviations mid (contributors mid population) ws)
                (absolute_weights ws)) as [[_ E] | [_ E]];
      rewrite E; cbn [bind]; [now intros [= <-] | discriminate].
  - intros [= <-]. destruct (collect_raise _ _ _ C) as (c & _ & F).
    now destruct (selected_measure_raise _ _ _ _ _ _ F) as (_ & -> & _).
Qed.

Lemma try_score_scored (real_rating : R) (prediction : result R)
    (dif : R) (length : Z) :
  (forall e, prediction = Raise e -> e = ZeroDivisionError) ->
  exists after,
    try_score real_rating prediction dif length = Ok after /\
    scored_as real_rating prediction (dif, length) after.
Proof.
  intros H. destruct prediction as [p | e]; cbn [try_score].
  - eexists. split; [reflexivity |]. split; cbn [fst snd].
    + discriminate.
    + now intros q [= <-].
  - rewrite (H e eq_refl). eexists. split; [reflexivity |].
    split; cbn [fst snd]; [now intros _ | discriminate].
Qed.

Lemma catalog_covers_filter (movies : catalog) (f : string * R -> bool)
    (v : vec) :
  catalog_covers movies v -> catalog_covers movies (filter f v).
Proof.
  intros C mid I. apply C. unfold keys in *.
  apply in_map_iff in I. destruct I as ([k r] & E & I).
  apply filter_In in I. apply in_map_iff. exists (k, r). tauto.
Qed.

Lemma others_remain (current_user_ratings : vec) (test_mid : string) :
  (2 <= List.length current_user_ratings)%nat ->
  NoDup (keys current_user_ratings) ->
  filter (fun '(mid, _) => negb (String.eqb mid test_mid)) current_user_ratings
  <> [].
Proof.
  destruct current_user_ratings as [| [k1 v1] [| [k2 v2] rest]];
    cbn [List.length]; try lia.
  intros _ N. cbn [filter].
  destruct (String.eqb_spec k1 test_mid) as [E1 | N1]; cbn [negb];
    [| discriminate].
  destruct (String.eqb_spec k2 test_mid) as [E2 | N2]; cbn [negb];
    [| discriminate].
  exfalso. subst. inversion N as [| ? ? NI _]. apply NI. now left.
Qed.

(** C6, as amended. For one held-out sample of a user with two or more
    ratings, every rated movie being in the catalog: the sample is scored
    without an exception, and each of the four modes is scored by its own
    prediction alone; a mode whose prediction raises [ZeroDivisionError] has
    its count taken down by one and its sum left as it was, and a mode whose
    prediction is a number has the squared error added to its sum and its
    count left as it was. *)
Theorem division_errors_stay_local (set_iter : pyset -> list string)
    (movies : catalog) (uid_to_ratings : dict vec) (mid_to_uids : dict pyset)
    (current_user_ratings : vec) (t : tally) (test_mid : string)
    (population : list vec) (real_rating : R) :
  neighbor_population set_iter uid_to_ratings mid_to_uids test_mid
  = Ok population ->
  get test_mid current_user_ratings = Some real_rating ->
  (2 <= List.length current_user_ratings)%nat ->
  NoDup (keys current_user_ratings) ->
  let test_ratings :=
    filter (fun '(mid, _) => negb (String.eqb mid test_mid))
      current_user_ratings in
  let predict :=
    get_rating test_mid movies test_ratings population (average test_ratings) in
  catalog_covers movies current_user_ratings ->
  (forall v, In v population -> catalog_covers movies v) ->
  exists t',
    score_sample set_iter movies uid_to_ratings mid_to_uids
      current_user_ratings t test_mid = Ok t' /\
    scored_as real_rating (predict false false false)
      (pearson_dif t, pearson_length t) (pearson_dif t', pearson_length t') /\
    scored_as real_rating (predict false true false)
      (cosine_dif t, cosine_length t) (cosine_dif t', cosine_length t') /\
    scored_as real_rating (predict false false true)
      (euclidean_dif t, euclidean_length t)
      (euclidean_dif t', euclidean_length t') /\
    scored_as real_rating (predict true false false)
      (genre_dif t, genre_length t) (genre_dif t', genre_length t').
Proof.
  intros P G L N test_ratings predict Cu Cp.
  assert (HG : forall e,
             predict true false false = Raise e -> e = ZeroDivisionError).
  { intros e. apply get_rating_genre_raise; [| exact Cp].
    now apply catalog_covers_filter. }
  unfold score_sample. rewrite P. cbn [bind]. unfold item. rewrite G. cbn [bind].
  fold test_ratings. rewrite pysum_total.
  assert (A : pydiv (total (values test_ratings)) (len test_ratings)
              = Ok (average test_ratings)).
  { apply pydiv_ok. unfold len. apply not_0_INR.
    pose proof (others_remain current_user_ratings test_mid L N) as O.
    fold test_ratings in O. destruct test_ratings; [contradiction | discriminate]. }
  rewrite A. cbn [bind]. fold predict.
  destruct (try_score_scored real_rating (predict false false false)
              (pearson_dif t) (pearson_length t)) as ([pd pl] & -> & Sp).
  { intros e. apply get_rating_plain_raise. }
  destruct (try_score_scored real_rating (predict false true false)
              (cosine_dif t) (cosine_length t)) as ([cd cl] & -> & Sc).
  { intros e. apply get_rating_plain_raise. }
  destruct (try_score_scored real_rating (predict false false true)
              (euclidean_dif t) (euclidean_length t)) as ([ed el] & -> & Se).
  { intros e. apply get_rating_plain_raise. }
  destruct (try_score_scored real_rating (predict true false false)
              (genre_dif t) (genre_length t) HG) as ([gd gl] & -> & Sg).
  cbn [bind fst snd]. eexists. split; [reflexivity |].
  cbn [pearson_dif pearson_length cosine_dif cosine_length euclidean_dif
       euclidean_length genre_dif genre_length].
  split; [exact Sp | split; [exact Sc | split; [exact Se | exact Sg]]].
Qed.

(** ** Cross-validation on one user with two ratings *)

Lemma average_single (k : string) (r : R) : average [(k, r)] = r.
Proof. unfold average, len. simpl. field. Qed.

Lemma get_rating_one_positive (mid : string) (movies : catalog) (our v : vec)
    (a r w : R) (cosine euclidean : bool) :
  get mid v = Some r ->
  selected_measure cosine euclidean our a v = Ok w -> 0 < w ->
  get_rating mid movies our [v] a false cosine euclidean
  = Ok (a + (r - average v)).
Proof.
  intros G M W. rewrite get_rating_plain.
  unfold contributors, contains. cbn [filter]. rewrite G. cbn [collect].
  rewrite M. cbn [bind].
  unfold weighted_deviations, absolute_weights, deviation.
  cbn [combine map total]. rewrite G.
  rewrite Rabs_pos_eq by lra. rewrite pydiv_ok by lra. cbn [bind].
  f_equal. field. lra.
Qed.

Lemma get_rating_one_zero (mid : string) (movies : catalog) (our v : vec)
    (a r : R) (cosine euclidean : bool) :
  get mid v = Some r ->
  selected_measure cosine euclidean our a v = Ok 0 ->
  get_rating mid movies our [v] a false cosine euclidean
  = Raise ZeroDivisionError.
Proof.
  intros G M. rewrite get_rating_plain.
  unfold contributors, contains. cbn [filter]. rewrite G. cbn [collect].
  rewrite M. cbn [bind].
  unfold absolute_weights. cbn [map total]. rewrite Rabs_R0.
  rewrite pydiv_zero by lra. reflexivity.
Qed.

(** The user's own full vector is the one neighbour. With a single visible
    rating the Pearson weight and the Euclidean weight are both [0]. *)
Lemma lone_user_pearson (mid x y : string) (r s : R) :
  get mid [(x, r); (y, s)] <> None ->
  get_rating mid one_genre_catalog [(y, s)] [[(x, r); (y, s)]] s
    false false false = Raise ZeroDivisionError /\
  get_rating mid one_genre_catalog [(x, r)] [[(x, r); (y, s)]] r
    false false false = Raise ZeroDivisionError.
Proof.
  intros G. destruct (get mid [(x, r); (y, s)]) as [q |] eqn:E; [| contradiction].
  split; apply get_rating_one_zero with q; try assumption;
    unfold selected_measure;
    match goal with
    | |- pearson_correlation ?A ?B ?a ?b = _ =>
        destruct (pearson_correlation_cases A B a b) as [[D _] | [_ P]];
          [exfalso; apply D; unfold sum_sq_dev at 1; simpl; ring | exact P]
    end.
Qed.

Lemma cosine_similarity_positive (A B : vec) :
  0 < total (map (fun '(a, b) => a * b) (shared A B)) ->
  0 < sq_norm A -> 0 < sq_norm B ->
  exists w, cosine_similarity A B = Ok w /\ 0 < w.
Proof.
  intros D NA NB. rewrite cosine_similarity_unfold.
  pose proof (sqrt_lt_R0 _ NA) as SA. pose proof (sqrt_lt_R0 _ NB) as SB.
  assert (P : 0 < sqrt (sq_norm A) * sqrt (sq_norm B))
    by now apply Rmult_lt_0_compat.
  rewrite pydiv_ok by lra. eexists. split; [reflexivity |].
  now apply Rdiv_lt_0_compat.
Qed.

Lemma lone_user_cosine :
  get_rating "k" one_genre_catalog [("j", 2)] [[("k", 4); ("j", 2)]] 2
    false true false = Ok 3 /\
  get_rating "j" one_genre_catalog [("k", 4)] [[("k", 4); ("j", 2)]] 4
    false true false = Ok 3.
Proof.
  assert (A : average [("k", 4); ("j", 2)] = 3).
  { unfold average, len. simpl. field. }
  split.
  - destruct (cosine_similarity_positive [("j", 2)] [("k", 4); ("j", 2)])
      as (w & C & W).
    { unfold shared. simpl. lra. }
    { unfold sq_norm. simpl. lra. }
    { unfold sq_norm. simpl. lra. }
    pose proof (get_rating_one_positive "k" one_genre_catalog [("j", 2)]
                  [("k", 4); ("j", 2)] 2 4 w true false eq_refl C W) as H.
    rewrite A in H. replace (2 + (4 - 3)) with 3 in H by lra. exact H.
  - destruct (cosine_similarity_positive [("k", 4)] [("k", 4); ("j", 2)])
      as (w & C & W).
    { unfold shared. simpl. lra. }
    { unfold sq_norm. simpl. lra. }
    { unfold sq_norm. simpl. lra. }
    pose proof (get_rating_one_positive "j" one_genre_catalog [("k", 4)]
                  [("k", 4); ("j", 2)] 4 2 w true false eq_refl C W) as H.
    rewrite A in H. replace (4 + (2 - 3)) with 3 in H by lra. exact H.
Qed.

Lemma lone_user_euclidean :
  get_rating "k" one_genre_catalog [("j", 2)] [[("k", 4); ("j", 2)]] 2
    false false true = Raise ZeroDivisionError /\
  get_rating "j" one_genre_catalog [("k", 4)] [[("k", 4); ("j", 2)]] 4
    false false true = Raise ZeroDivisionError.
Proof.
  split.
  - apply get_rating_one_zero with 4; [reflexivity |].
    unfold selected_measure. rewrite euclidean_distance_unfold.
    unfold shared. simpl. replace ((2 - 2) * ((2 - 2) * 1) + 0) with 0 by ring.
    now rewrite sqrt_0.
  - apply get_rating_one_zero with 2; [reflexivity |].
    unfold selected_measure. rewrite euclidean_distance_unfold.
    unfold shared. simpl. replace ((4 - 4) * ((4 - 4) * 1) + 0) with 0 by ring.
    now rewrite sqrt_0.
Qed.

(** In genre mode the target item is replaced by [j], the last item of the
    last neighbour, for both samples. *)
Lemma lone_user_genre :
  get_rating "k" one_genre_catalog [("j", 2)] [[("k", 4); ("j", 2)]] 2
    true false false = Ok 1 /\
  get_rating "j" one_genre_catalog [("k", 4)] [[("k", 4); ("j", 2)]] 4
    true false false = Ok 3.
Proof.
  split.
  - unfold get_rating. run. tf_idf_values. run.
    rewrite is_zero_false by lra. cbn [negb].
    rewrite cosine_similarity_single by tf_idf_positive.
    unfold pysum. cbn [fold_left bind].
    rewrite pydiv_ok by lra. cbn [bind fst snd].
    rewrite Rabs_R1. rewrite pydiv_ok by lra. cbn [bind]. f_equal. field.
  - unfold get_rating. run. tf_idf_values. run.
    rewrite is_zero_false by lra. cbn [negb].
    rewrite cosine_similarity_single by tf_idf_positive.
    unfold pysum. cbn [fold_left bind].
    rewrite pydiv_ok by lra. cbn [bind fst snd].
    rewrite Rabs_R1. rewrite pydiv_ok by lra. cbn [bind]. f_equal. field.
Qed.

Ltac run_loop :=
  cbn -[pydiv pysum pysqrt pylog Rabs pow IZR Rplus Rmult Rminus Rdiv ln
        get_rating Rle_dec len Z.add Z.sub].

(** Rewrite with a known value of [get_rating], whatever names the types of
    its arguments carry. *)
Ltac use_prediction H :=
  match type of H with
  | ?l = _ =>
      match goal with
      | |- context [get_rating ?a ?b ?c ?d ?e ?f ?g ?h] =>
          let t := constr:(get_rating a b c d e f g h) in
          unify t l; change t with l; rewrite H
      end
  end.

Lemma visible_average_single (k : string) (r : R) :
  pydiv (pysum [r]) (len [(k, r)]) = Ok r.
Proof.
  unfold pysum, len. simpl. rewrite pydiv_ok by lra. f_equal. field.
Qed.

Lemma lone_user_run_aborts :
  get_rating "k" one_genre_catalog [("j", 2)] [[("k", 4); ("j", 2)]] 2
    false false false = Raise ZeroDivisionError /\
  calculate_rmse_for_each_distance_measure insertion_order (fun _ => 0) 50
    one_genre_catalog lone_user_rows = Raise ZeroDivisionError.
Proof.
  destruct (lone_user_pearson "k" "k" "j" 4 2 ltac:(discriminate)) as [Pk _].
  destruct (lone_user_pearson "j" "k" "j" 4 2 ltac:(discriminate)) as [_ Pj].
  destruct lone_user_cosine as [Ck Cj].
  destruct lone_user_euclidean as [Ek Ej].
  destruct lone_user_genre as [Gk Gj].
  split; [exact Pk |].
  unfold calculate_rmse_for_each_distance_measure, score_all.
  run_loop.
  destruct (Rle_dec (50 / 100) 0) as [L | _]; [exfalso; lra |].
  rewrite !visible_average_single. cbn [bind].
  use_prediction Pk. use_prediction Ck. use_prediction Ek. use_prediction Gk.
  cbn [try_score bind fst snd].
  cbn [cosine_dif pearson_dif euclidean_dif genre_dif
       cosine_length pearson_length euclidean_length genre_length].
  use_prediction Pj. use_prediction Cj. use_prediction Ej. use_prediction Gj.
  cbn [try_score bind fst snd].
  unfold report, rmse.
  cbn [cosine_dif pearson_dif euclidean_dif genre_dif
       cosine_length pearson_length euclidean_length genre_length].
  replace (0 + 2)%Z with 2%Z by reflexivity.
  replace (2 - 1 - 1)%Z with 0%Z by reflexivity.
  rewrite (pydiv_ok _ 2) by lra. cbn [bind].
  rewrite pysqrt_ok by (apply Rlt_le, Rdiv_lt_0_compat; nra). cbn [bind].
  rewrite pydiv_zero by reflexivity. reflexivity.
Qed.

Lemma division_errors_stay_local_witness :
  exists t',
    score_sample insertion_order one_genre_catalog
      [("u", [("k", 4); ("j", 2)])] [("k", ["u"]); ("j", ["u"])]
      [("k", 4); ("j", 2)] tally0 "k" = Ok t' /\
    pearson_dif t' = 0 /\ pearson_length t' = (-1)%Z.
Proof.
  assert (N : NoDup (keys [("k", 4); ("j", 2)])).
  { simpl. repeat constructor; simpl; intuition discriminate. }
  assert (C : catalog_covers one_genre_catalog [("k", 4); ("j", 2)]).
  { intros mid [<- | [<- | []]]; eexists; reflexivity. }
  assert (Cp : forall v, In v [[("k", 4); ("j", 2)]] ->
                         catalog_covers one_genre_catalog v).
  { intros v [<- | []]. exact C. }
  destruct (division_errors_stay_local insertion_order one_genre_catalog
              [("u", [("k", 4); ("j", 2)])] [("k", ["u"]); ("j", ["u"])]
              [("k", 4); ("j", 2)] tally0 "k" [[("k", 4); ("j", 2)]] 4
              eq_refl eq_refl ltac:(simpl; lia) N C Cp)
    as (t' & S & [Sp _] & _).
  exists t'. split; [exact S |].
  cbn [filter String.eqb Ascii.eqb Bool.eqb negb] in Sp.
  rewrite average_single in Sp.
  destruct (lone_user_pearson "k" "k" "j" 4 2 ltac:(discriminate)) as [Pk _].
  destruct (Sp Pk) as [D L]. cbn [fst snd tally0 pearson_dif pearson_length] in D, L.
  split; [exact D | exact L].
Defined.

(** ** Symmetry of the measures *)











(** ** Bounds of the measures *)

Lemma total_map_scale {X : Type} (c : R) (f : X -> R) (l : list X) :
  total (map (fun x => c * f x) l) = c * total (map f l).
Proof. induction l as [| x l IH]; simpl; [lra | rewrite IH; lra]. Qed.











Lemma in_shared_values (A B : vec) (a b : R) :
  In (a, b) (shared A B) -> In a (values A) /\ In b (values B).
Proof.
  unfold shared. intros I. apply in_flat_map in I.
  destruct I as ([k x] & IA & I).
  destruct (get k B) as [y |] eqn:G; [| contradiction].
  destruct I as [[= <- <-] | []]. split.
  - unfold values. apply in_map_iff. now exists (k, x).
  - clear IA. induction B as [| [k' y'] B IH]; [discriminate |].
    simpl in G. destruct (String.eqb k k').
    + injection G as <-. now left.
    + right. now apply IH.
Qed.





(** ** A vector against itself, and the distances *)

Lemma shared_cons_left (k : string) (a : R) (A B : vec) :
  shared ((k, a) :: A) B
  = (match get k B with
     | Some b => [(a, b)]
     | None => []
     end ++ shared A B)%list.
Proof. reflexivity. Qed.

Lemma get_cons_other {V : Type} (k k' : string) (v : V) (d : dict V) :
  k' <> k -> get k' ((k, v) :: d) = get k' d.
Proof.
  intros N. cbn [get]. destruct (String.eqb_spec k' k); [contradiction | reflexivity].
Qed.

Lemma get_cons_same {V : Type} (k : string) (v : V) (d : dict V) :
  get k ((k, v) :: d) = Some v.
Proof. cbn [get]. now rewrite String.eqb_refl. Qed.








(** ** The Bray-Curtis and Canberra distances *)

Lemma bray_curtis_loop (A B : vec) (acc : R * R) :
  fold_left
    (fun acc '(key, our_score) =>
       match get key B with
       | Some y => (fst acc + Rabs (our_score - y), snd acc + Rabs (our_score + y))
       | None => acc
       end)
    A acc
  = (fst acc + total (map (fun '(a, b) => Rabs (a - b)) (shared A B)),
     snd acc + total (map (fun '(a, b) => Rabs (a + b)) (shared A B))).
Proof.
  revert acc. induction A as [| [k a] A IH]; intros [n d].
  - simpl. f_equal; lra.
  - cbn [fold_left]. rewrite IH, shared_cons_left.
    destruct (get k B) as [b |]; cbn [fst snd app map total]; f_equal; lra.
Qed.

Lemma bray_curtis_distance_unfold (A B : vec) :
  bray_curtis_distance A B
  = pydiv (total (map (fun '(a, b) => Rabs (a - b)) (shared A B)))
          (total (map (fun '(a, b) => Rabs (a + b)) (shared A B))).
Proof.
  unfold bray_curtis_distance. rewrite bray_curtis_loop. cbn [fst snd].
  now rewrite !Rplus_0_l.
Qed.

(** X6. The Bray-Curtis distance raises [ZeroDivisionError] when the two
    vectors share no key. For two vectors of positive entries that share a
    key it returns a number that is at least [0] and below [1]. *)
Theorem bray_curtis_distance_range (A B : vec) :
  (shared A B = [] -> bray_curtis_distance A B = Raise ZeroDivisionError) /\
  (positive A -> positive B -> shared A B <> [] ->
   exists w, bray_curtis_distance A B = Ok w /\ 0 <= w < 1).
Proof.
  rewrite bray_curtis_distance_unfold. split.
  - intros ->. simpl. now apply pydiv_zero.
  - intros PA PB NE.
    assert (H : forall l : list (R * R),
               (forall a b, In (a, b) l -> 0 < a /\ 0 < b) -> l <> [] ->
               0 <= total (map (fun '(a, b) => Rabs (a - b)) l)
               < total (map (fun '(a, b) => Rabs (a + b)) l)).
    { induction l as [| [a b] l IH]; intros P N; [contradiction |].
      destruct (P a b (or_introl eq_refl)) as [Pa Pb].
      assert (T : 0 <= Rabs (a - b) < Rabs (a + b)).
      { split; [apply Rabs_pos |].
        rewrite (Rabs_pos_eq (a + b)) by lra.
        unfold Rabs. destruct (Rcase_abs (a - b)); lra. }
      cbn [map total]. destruct l as [| p l'].
      - simpl. lra.
      - assert (0 <= total (map (fun '(a0, b0) => Rabs (a0 - b0)) (p :: l'))
                < total (map (fun '(a0, b0) => Rabs (a0 + b0)) (p :: l'))).
        { apply IH; [| discriminate]. intros x y I. apply P. now right. }
        lra. }
    destruct (H (shared A B)) as [L U]; [| exact NE |].
    { intros a b I. apply in_shared_values in I. destruct I as [Ia Ib].
      split; [now apply PA | now apply PB]. }
    rewrite pydiv_ok by lra. eexists. split; [reflexivity |]. split.
    + apply Rmult_le_pos; [exact L |]. apply Rlt_le, Rinv_0_lt_compat. lra.
    + apply Rmult_lt_reg_r
        with (total (map (fun '(a, b) => Rabs (a + b)) (shared A B))); [lra |].
      unfold Rdiv. rewrite Rmult_assoc, Rinv_l by lra. lra.
Qed.

Lemma bray_curtis_distance_range_witness :
  exists w, bray_curtis_distance [("a", 1); ("b", 2)] [("b", 3)] = Ok w /\
            0 <= w < 1.
Proof.
  apply (proj2 (bray_curtis_distance_range [("a", 1); ("b", 2)] [("b", 3)])).
  - intros a I. simpl in I. destruct I as [<- | [<- | []]]; lra.
  - intros a I. simpl in I. destruct I as [<- | []]; lra.
  - discriminate.
Defined.

Lemma abs_sum_zero (a b : R) : Rabs a + Rabs b = 0 <-> a = 0 /\ b = 0.
Proof.
  pose proof (Rabs_pos a). pose proof (Rabs_pos b). split.
  - intros H1. split.
    + destruct (Req_dec_T a 0) as [E | N]; [exact E |].
      pose proof (Rabs_pos_lt a N). lra.
    + destruct (Req_dec_T b 0) as [E | N]; [exact E |].
      pose proof (Rabs_pos_lt b N). lra.
  - intros [-> ->]. rewrite Rabs_R0. lra.
Qed.

Lemma canberra_loop_ok (A B : vec) (acc : R) :
  ~ In (0, 0) (shared A B) ->
  for_each
    (fun acc '(key, our_score) =>
       match get key B with
       | Some y =>
           q <- pydiv (Rabs (our_score - y)) (Rabs our_score + Rabs y) ;;
           Ok (acc + q)
       | None => Ok acc
       end)
    A acc
  = Ok (acc + total (map (fun '(a, b) => Rabs (a - b) / (Rabs a + Rabs b))
                        (shared A B))).
Proof.
  revert acc. induction A as [| [k a] A IH]; intros acc N.
  - simpl. f_equal. lra.
  - cbn [for_each]. rewrite shared_cons_left in N |- *.
    destruct (get k B) as [b |].
    + rewrite pydiv_ok.
      * cbn [bind]. rewrite IH.
        -- cbn [app map total]. f_equal. lra.
        -- intros I. apply N. now right.
      * intros Z. apply abs_sum_zero in Z. destruct Z as [-> ->].
        apply N. now left.
    + cbn [bind app]. apply IH. exact N.
Qed.

Lemma canberra_loop_raise (A B : vec) (acc : R) :
  In (0, 0) (shared A B) ->
  for_each
    (fun acc '(key, our_score) =>
       match get key B with
       | Some y =>
           q <- pydiv (Rabs (our_score - y)) (Rabs our_score + Rabs y) ;;
           Ok (acc + q)
       | None => Ok acc
       end)
    A acc
  = Raise ZeroDivisionError.
Proof.
  revert acc. induction A as [| [k a] A IH]; intros acc I; [contradiction |].
  cbn [for_each]. rewrite shared_cons_left in I.
  destruct (get k B) as [b |].
  - destruct (pydiv_cases (Rabs (a - b)) (Rabs a + Rabs b)) as [[_ E] | [NZ E]];
      rewrite E; cbn [bind]; [reflexivity |].
    apply IH. destruct I as [[= -> ->] | I]; [| exact I].
    exfalso. apply NZ. rewrite Rabs_R0. lra.
  - cbn [bind]. apply IH. exact I.
Qed.

Lemma pair_eq_dec (x y : R * R) : {x = y} + {x <> y}.
Proof. decide equality; apply Req_dec_T. Qed.

(** X7. The Canberra distance raises [ZeroDivisionError] exactly when the two
    vectors are both [0] at some shared key. Otherwise it returns a number
    between [0] and the number of shared keys; without a shared key that is
    [0]. *)
Theorem canberra_distance_range (A B : vec) :
  (In (0, 0) (shared A B) /\ canberra_distance A B = Raise ZeroDivisionError)
  \/ (~ In (0, 0) (shared A B) /\
      exists w, canberra_distance A B = Ok w /\
                0 <= w <= INR (List.length (shared A B))).
Proof.
  unfold canberra_distance.
  destruct (in_dec pair_eq_dec (0, 0) (shared A B)) as [I | NI].
  - left. split; [exact I | now apply canberra_loop_raise].
  - right. split; [exact NI |]. rewrite canberra_loop_ok by exact NI.
    eexists. split; [reflexivity |]. rewrite Rplus_0_l.
    assert (H : forall l : list (R * R),
               ~ In (0, 0) l ->
               0 <= total (map (fun '(a, b) => Rabs (a - b) / (Rabs a + Rabs b)) l)
               <= INR (List.length l)).
    { induction l as [| [a b] l IH]; intros N.
      - simpl. lra.
      - cbn [map total List.length]. rewrite S_INR.
        assert (NZ : Rabs a + Rabs b <> 0).
        { intros Z. apply abs_sum_zero in Z. destruct Z as [-> ->].
          apply N. now left. }
        pose proof (Rabs_pos a). pose proof (Rabs_pos b).
        pose proof (Rabs_pos (a - b)).
        assert (T : Rabs (a - b) <= Rabs a + Rabs b).
        { unfold Rminus. eapply Rle_trans; [apply Rabs_triang |].
          rewrite Rabs_Ropp. lra. }
        assert (Q : 0 <= Rabs (a - b) / (Rabs a + Rabs b) <= 1).
        { split.
          - apply Rmult_le_pos; [assumption |].
            apply Rlt_le, Rinv_0_lt_compat. lra.
          - apply Rmult_le_reg_r with (Rabs a + Rabs b); [lra |].
            unfold Rdiv. rewrite Rmult_assoc, Rinv_l by exact NZ. lra. }
        assert (0 <= total (map (fun '(a0, b0) =>
                                   Rabs (a0 - b0) / (Rabs a0 + Rabs b0)) l)
                <= INR (List.length l))
          by (apply IH; intros I; apply N; now right).
        lra. }
    apply H. exact NI.
Qed.

(** ** Genre frequencies and the corpus *)

(** A loop that does not raise keeps an invariant that follows the items it
    has gone through. *)
Lemma for_each_trace {A S : Type} (Inv : list A -> S -> Prop)
    (body : S -> A -> result S) (l : list A) :
  forall (done : list A) (s s' : S),
    (forall done s a s', body s a = Ok s' -> Inv done s ->
                         Inv (done ++ [a])%list s') ->
    Inv done s -> for_each body l s = Ok s' -> Inv (done ++ l)%list s'.
Proof.
  induction l as [| a l IH]; intros done s s' H I E; cbn [for_each] in E.
  - injection E as <-. now rewrite app_nil_r.
  - destruct (body s a) as [s1 |] eqn:B; cbn [bind] in E; [| discriminate].
    replace (done ++ a :: l)%list with ((done ++ [a]) ++ l)%list
      by (rewrite <- app_assoc; reflexivity).
    apply (IH (done ++ [a])%list s1 s' H); [| exact E].
    now apply (H done s a s1).
Qed.

Lemma count_of_incr (g k : string) (d : dict Z) :
  count_of g (incr k d)
  = (count_of g d + if String.eqb g k then 1 else 0)%Z.
Proof.
  unfold count_of, incr. destruct (String.eqb_spec g k) as [-> | N].
  - destruct (get k d) as [c |]; rewrite get_set_same; lia.
  - destruct (get k d) as [c |]; rewrite get_set_other by exact N;
      destruct (get g d); lia.
Qed.

Lemma count_of_fold_incr (g : string) (gs : list string) (d : dict Z) :
  count_of g (fold_left (fun gf genre => incr genre gf) gs d)
  = (count_of g d + Z.of_nat (count_occ string_dec gs g))%Z.
Proof.
  revert d. induction gs as [| x gs IH]; intros d; cbn [fold_left count_occ].
  - lia.
  - rewrite IH, count_of_incr.
    destruct (string_dec x g) as [-> | N].
    + rewrite String.eqb_refl. lia.
    + destruct (String.eqb_spec g x) as [E | _]; [congruence | lia].
Qed.

Lemma genre_tokens_cons (movies : catalog) (mid : string) (r : R) (v : vec) :
  genre_tokens movies ((mid, r) :: v)
  = (match get mid movies with
     | Some m => genres m
     | None => []
     end ++ genre_tokens movies v)%list.
Proof. reflexivity. Qed.

Lemma get_genre_frequencies_from (movies : catalog) (v : vec) (d : dict Z) :
  catalog_covers movies v ->
  exists gf,
    for_each
      (fun genre_frequencies '(mid, _) =>
         m <- item mid movies ;;
         Ok (fold_left (fun gf genre => incr genre gf) (genres m)
               genre_frequencies))
      v d = Ok gf /\
    forall g,
      count_of g gf
      = (count_of g d + Z.of_nat (count_occ string_dec (genre_tokens movies v) g))%Z.
Proof.
  revert d. induction v as [| [mid r] v IH]; intros d C.
  - exists d. split; [reflexivity |]. intros g. simpl. lia.
  - destruct (C mid (or_introl eq_refl)) as [m G].
    cbn [for_each]. unfold item at 1. rewrite G. cbn [bind].
    destruct (IH (fold_left (fun gf genre => incr genre gf) (genres m) d))
      as (gf & E & H).
    { intros k I. apply C. now right. }
    exists gf. split; [exact E |]. intros g.
    rewrite H, count_of_fold_incr, genre_tokens_cons, G, count_occ_app. lia.
Qed.

Lemma get_genre_frequencies_missing (movies : catalog) (v : vec) (d : dict Z) :
  some_movie_missing movies v ->
  for_each
    (fun genre_frequencies '(mid, _) =>
       m <- item mid movies ;;
       Ok (fold_left (fun gf genre => incr genre gf) (genres m)
             genre_frequencies))
    v d = Raise KeyError.
Proof.
  revert d. induction v as [| [mid r] v IH]; intros d (k & I & G).
  - contradiction.
  - cbn [for_each]. unfold item at 1.
    destruct (get mid movies) as [m |] eqn:Gm; cbn [bind]; [| reflexivity].
    apply IH. exists k. split; [| exact G].
    destruct I as [E | I]; [| exact I]. simpl in E. congruence.
Qed.

(** X8. [get_genre_frequencies] counts genre labels, not movies: when every
    rated movie is in the catalog, the count of a genre is the number of
    times the label stands in the genre lists of the rated movies, and a
    genre that never stands there has no entry. When a rated movie is missing
    from the catalog the function raises [KeyError]. *)
Theorem get_genre_frequencies_counts (user_ratings : vec) (movies : catalog) :
  (catalog_covers movies user_ratings ->
   exists gf,
     get_genre_frequencies user_ratings movies = Ok gf /\
     (forall g, count_of g gf
                = Z.of_nat (count_occ string_dec
                              (genre_tokens movies user_ratings) g)) /\
     (forall g, get g gf = None <-> ~ In g (genre_tokens movies user_ratings)))
  /\ (some_movie_missing movies user_ratings ->
      get_genre_frequencies user_ratings movies = Raise KeyError).
Proof.
  split.
  - intros C. unfold get_genre_frequencies.
    destruct (get_genre_frequencies_from movies user_ratings [] C)
      as (gf & E & H).
    destruct (get_genre_frequencies_ok user_ratings movies C) as (gf' & E' & P).
    unfold get_genre_frequencies in E'. rewrite E in E'. injection E' as <-.
    exists gf. split; [exact E |]. split.
    + intros g. rewrite H. unfold count_of. simpl. lia.
    + intros g. specialize (H g). unfold count_of at 2 in H. simpl in H.
      rewrite (count_occ_not_In string_dec). split.
      * intros N. unfold count_of in H. rewrite N in H. lia.
      * intros Z. rewrite Z in H. unfold count_of in H.
        destruct (get g gf) as [c |] eqn:G; [| reflexivity].
        pose proof (P g c G). simpl in H. lia.
  - apply get_genre_frequencies_missing.
Qed.

Lemma get_genre_frequencies_counts_witness :
  exists gf,
    get_genre_frequencies [("k", 4); ("j", 2)] one_genre_catalog = Ok gf /\
    count_of "G" gf = 2%Z.
Proof.
  destruct (proj1 (get_genre_frequencies_counts [("k", 4); ("j", 2)]
                     one_genre_catalog)) as (gf & E & H & _).
  { intros mid [<- | [<- | []]]; eexists; reflexivity. }
  exists gf. split; [exact E |]. rewrite H. reflexivity.
Defined.

(** ** The corpus and the item that the corpus loop leaves behind *)

Lemma genres_fold_split (gs : list string) (mid : string) (seen : pyset)
    (corpus : dict Z) :
  fold_left
    (fun '(mid0, seen, corpus) genre =>
       if set_mem genre seen then (mid0, seen, corpus)
       else (mid0, set_add genre seen, incr genre corpus))
    gs (mid, seen, corpus)
  = (mid, fst (see_genres gs (seen, corpus)), snd (see_genres gs (seen, corpus))).
Proof.
  revert seen corpus. induction gs as [| g gs IH]; intros seen corpus.
  - reflexivity.
  - unfold see_genres. cbn [fold_left fst snd].
    destruct (set_mem g seen); rewrite IH; reflexivity.
Qed.

Lemma last_cons_default {X : Type} (x : X) (l : list X) (d : X) :
  last (x :: l) d = last l x.
Proof.
  revert x d. induction l as [| y l IH]; intros x d; [reflexivity |].
  change (last (x :: y :: l) d) with (last (y :: l) d).
  now rewrite (IH y d), (IH y x).
Qed.

Lemma last_app_default {X : Type} (l1 l2 : list X) (d : X) :
  last (l1 ++ l2) d = last l2 (last l1 d).
Proof.
  revert d. induction l1 as [| x l1 IH]; intros d; [reflexivity |].
  cbn [app]. rewrite !last_cons_default. apply IH.
Qed.

Lemma vector_loop_split (movies : catalog) (v : vec) (mid : string)
    (seen : pyset) (corpus : dict Z) :
  for_each
    (fun '(_, seen, corpus) '(mid', _) =>
       m <- item mid' movies ;;
       Ok (fold_left
             (fun '(mid0, seen, corpus) genre =>
                if set_mem genre seen then (mid0, seen, corpus)
                else (mid0, set_add genre seen, incr genre corpus))
             (genres m) (mid', seen, corpus)))
    v (mid, seen, corpus)
  = sc <- see_vector movies v (seen, corpus) ;;
    Ok (last (keys v) mid, fst sc, snd sc).
Proof.
  revert mid seen corpus. induction v as [| [mid' r] v IH]; intros mid seen corpus.
  - reflexivity.
  - unfold see_vector. cbn [for_each]. fold (see_vector movies v).
    destruct (item mid' movies) as [m |]; cbn [bind]; [| reflexivity].
    rewrite genres_fold_split, IH.
    destruct (see_genres (genres m) (seen, corpus)) as [seen1 corpus1].
    cbn [fst snd].
    destruct (see_vector movies v (seen1, corpus1)) as [sc |]; cbn [bind];
      [| reflexivity].
    unfold keys. cbn [map fst]. now rewrite last_cons_default.
Qed.

(** Give the state that [see_vector] starts from one and the same form. *)
Ltac same_start c :=
  repeat match goal with
         | |- context [see_vector _ _ ?sc] => progress change sc with c
         end.

Lemma build_corpus_from (movies : catalog) (population : list vec)
    (mid : string) (corpus : dict Z) :
  for_each
    (fun st other_user_ratings =>
       r <- for_each
              (fun '(_, seen, corpus) '(mid', _) =>
                 m <- item mid' movies ;;
                 Ok (fold_left
                       (fun '(mid0, seen, corpus) genre =>
                          if set_mem genre seen then (mid0, seen, corpus)
                          else (mid0, set_add genre seen, incr genre corpus))
                       (genres m) (mid', seen, corpus)))
              other_user_ratings (fst st, [], snd st) ;;
       Ok (fst (fst r), snd r))
    population (mid, corpus)
  = c <- for_each
           (fun corpus v => sc <- see_vector movies v ([], corpus) ;; Ok (snd sc))
           population corpus ;;
    Ok (last (all_items population) mid, c).
Proof.
  revert mid corpus. induction population as [| v population IH];
    intros mid corpus.
  - reflexivity.
  - cbn [for_each fst snd]. rewrite vector_loop_split.
    same_start (@pair pyset (dict Z) (@nil string) corpus).
    destruct (see_vector movies v (@pair pyset (dict Z) (@nil string) corpus))
      as [sc |]; cbn [bind fst snd]; [| reflexivity].
    rewrite IH. unfold all_items. cbn [map List.concat].
    now rewrite last_app_default.
Qed.

(** X9. The corpus loop of [get_rating] writes to the variable [mid]. What
    [build_corpus] hands on as the item is the last item of the last
    neighbour vector that is not empty, and the given item only when every
    vector is empty; the corpus, and any exception, do not depend on the
    given item. *)
Theorem build_corpus_item (mid : string) (movies : catalog)
    (population : list vec) :
  build_corpus mid movies population
  = corpus <- document_frequencies movies population ;;
    Ok (last (all_items population) mid, corpus).
Proof. unfold build_corpus, document_frequencies. apply build_corpus_from. Qed.

Lemma get_rating_genre_unfold (mid : string) (movies : catalog) (our : vec)
    (population : list vec) (our_avg : R) (cosine euclidean : bool) :
  get_rating mid movies our population our_avg true cosine euclidean
  = corpus <- document_frequencies movies population ;;
    gf <- get_genre_frequencies our movies ;;
    acc <- for_each
             (add_neighbor (last (all_items population) mid) movies our our_avg
                (Some (mkSetup corpus (Z.of_nat (List.length population)) gf))
                cosine euclidean)
             population (0, 0) ;;
    q <- pydiv (fst acc) (snd acc) ;;
    Ok (our_avg + q).
Proof.
  unfold get_rating, build_corpus. rewrite build_corpus_from.
  fold (document_frequencies movies population).
  destruct (document_frequencies movies population) as [c |]; cbn [bind];
    [| reflexivity].
  destruct (get_genre_frequencies our movies) as [gf |]; cbn [bind fst snd];
    reflexivity.
Qed.

(** X10. In genre mode the target item does not count once a neighbour
    vector is not empty: [get_rating] gives the same result, or the same
    exception, for every two target items, because the prediction is made
    for the last item of the last neighbour. *)
Theorem genre_mode_ignores_target (mid1 mid2 : string) (movies : catalog)
    (our : vec) (population : list vec) (our_avg : R)
    (cosine euclidean : bool) :
  all_items population <> [] ->
  get_rating mid1 movies our population our_avg true cosine euclidean
  = get_rating mid2 movies our population our_avg true cosine euclidean.
Proof.
  intros N. rewrite !get_rating_genre_unfold.
  assert (E : last (all_items population) mid1 = last (all_items population) mid2).
  { destruct (all_items population) as [| x l]; [contradiction |].
    now rewrite !last_cons_default. }
  now rewrite E.
Qed.

Lemma genre_mode_ignores_target_witness :
  get_rating "k" one_genre_catalog [("j", 2)] [[("k", 4); ("j", 2)]] 2
    true false false
  = get_rating "j" one_genre_catalog [("j", 2)] [[("k", 4); ("j", 2)]] 2
      true false false.
Proof.
  apply (genre_mode_ignores_target "k" "j" one_genre_catalog [("j", 2)]
           [[("k", 4); ("j", 2)]] 2 false false).
  discriminate.
Defined.

(** ** Document frequencies *)

Lemma set_mem_set_add (g x : string) (s : pyset) :
  set_mem g (set_add x s) = (String.eqb g x || set_mem g s)%bool.
Proof.
  unfold set_add. destruct (set_mem x s) eqn:M.
  - destruct (String.eqb_spec g x) as [-> | N]; [now rewrite M | reflexivity].
  - unfold set_mem. rewrite existsb_app. simpl.
    destruct (existsb (String.eqb g) s), (String.eqb g x); reflexivity.
Qed.

Lemma set_mem_cons (g x : string) (s : list string) :
  set_mem g (x :: s) = (String.eqb g x || set_mem g s)%bool.
Proof. reflexivity. Qed.

Lemma set_mem_app (g : string) (s t : list string) :
  set_mem g (s ++ t)%list = (set_mem g s || set_mem g t)%bool.
Proof. unfold set_mem. apply existsb_app. Qed.

Lemma see_genres_cons (x : string) (gs : list string) (sc : pyset * dict Z) :
  see_genres (x :: gs) sc
  = see_genres gs (if set_mem x (fst sc) then sc
                   else (set_add x (fst sc), incr x (snd sc))).
Proof. reflexivity. Qed.

Lemma see_vector_cons (movies : catalog) (mid : string) (r : R) (v : vec)
    (sc : pyset * dict Z) :
  see_vector movies ((mid, r) :: v) sc
  = m <- item mid movies ;; see_vector movies v (see_genres (genres m) sc).
Proof.
  unfold see_vector. cbn [for_each].
  destruct (item mid movies); reflexivity.
Qed.

Lemma see_genres_effect (gs : list string) (sc : pyset * dict Z) (g : string) :
  set_mem g (fst (see_genres gs sc)) = (set_mem g (fst sc) || set_mem g gs)%bool
  /\ count_of g (snd (see_genres gs sc))
     = (count_of g (snd sc)
        + if (negb (set_mem g (fst sc)) && set_mem g gs)%bool then 1 else 0)%Z.
Proof.
  revert sc. induction gs as [| x gs IH]; intros [seen c].
  - cbn [see_genres fold_left fst snd]. rewrite orb_false_r, andb_false_r.
    split; [reflexivity | lia].
  - rewrite see_genres_cons, set_mem_cons. cbn [fst snd].
    destruct (set_mem x seen) eqn:M.
    + destruct (IH (seen, c)) as [H1 H2]. cbn [fst snd] in H1, H2.
      rewrite H1, H2. destruct (String.eqb_spec g x) as [-> | N].
      * rewrite M. cbn. split; [reflexivity | lia].
      * cbn. split; reflexivity.
    + destruct (IH (set_add x seen, incr x c)) as [H1 H2].
      cbn [fst snd] in H1, H2.
      rewrite H1, H2, set_mem_set_add, count_of_incr.
      destruct (String.eqb_spec g x) as [-> | N].
      * rewrite M. cbn. split; [reflexivity | lia].
      * cbn. split; [reflexivity |].
        destruct (set_mem g seen), (set_mem g gs); cbn; lia.
Qed.

Lemma see_vector_effect (movies : catalog) (v : vec) (sc : pyset * dict Z) :
  catalog_covers movies v ->
  exists sc',
    see_vector movies v sc = Ok sc' /\
    forall g,
      set_mem g (fst sc')
      = (set_mem g (fst sc) || set_mem g (genre_tokens movies v))%bool /\
      count_of g (snd sc')
      = (count_of g (snd sc)
         + if (negb (set_mem g (fst sc))
               && set_mem g (genre_tokens movies v))%bool
           then 1 else 0)%Z.
Proof.
  revert sc. induction v as [| [mid r] v IH]; intros sc C.
  - exists sc. split; [reflexivity |]. intros g. cbn.
    rewrite orb_false_r, andb_false_r. split; [reflexivity | lia].
  - destruct (C mid (or_introl eq_refl)) as [m G].
    rewrite see_vector_cons. unfold item. rewrite G. cbn [bind].
    destruct (IH (see_genres (genres m) sc)) as (sc' & E & H).
    { intros k I. apply C. now right. }
    exists sc'. split; [exact E |]. intros g.
    destruct (H g) as [H1 H2].
    destruct (see_genres_effect (genres m) sc g) as [S1 S2].
    rewrite H1, H2, S1, S2, genre_tokens_cons, G, set_mem_app.
    destruct (set_mem g (fst sc)), (set_mem g (genres m)),
      (set_mem g (genre_tokens movies v)); cbn; split; (reflexivity || lia).
Qed.

Lemma document_frequencies_from (movies : catalog) (population : list vec)
    (corpus : dict Z) :
  (forall v, In v population -> catalog_covers movies v) ->
  exists c,
    for_each
      (fun corpus v => sc <- see_vector movies v ([], corpus) ;; Ok (snd sc))
      population corpus = Ok c /\
    forall g,
      count_of g c
      = (count_of g corpus
         + Z.of_nat (List.length (filter (has_genre movies g) population)))%Z.
Proof.
  revert corpus. induction population as [| v population IH]; intros corpus C.
  - exists corpus. split; [reflexivity |]. intros g. simpl. lia.
  - destruct (see_vector_effect movies v ([], corpus) (C v (or_introl eq_refl)))
      as (sc' & E & H).
    cbn [for_each]. rewrite E. cbn [bind].
    destruct (IH (snd sc')) as (c & Ec & Hc).
    { intros w I. apply C. now right. }
    exists c. split; [exact Ec |]. intros g.
    rewrite Hc. destruct (H g) as [_ H2]. rewrite H2. cbn [fst snd filter].
    unfold has_genre at 2.
    destruct (set_mem g (genre_tokens movies v)); cbn [List.length]; cbn; lia.
Qed.

Lemma filter_length_le {X : Type} (f : X -> bool) (l : list X) :
  (List.length (filter f l) <= List.length l)%nat.
Proof.
  induction l as [| x l IH]; simpl; [lia |]. destruct (f x); simpl; lia.
Qed.

(** X11. The corpus counts users, not movies: when every movie of every
    neighbour is in the catalog, [build_corpus] returns a corpus in which the
    count of a genre is the number of neighbours who rated at least one movie
    of that genre; so it lies between [0] and the size of the population. *)
Theorem corpus_counts_users (mid : string) (movies : catalog)
    (population : list vec) :
  (forall v, In v population -> catalog_covers movies v) ->
  exists item corpus,
    build_corpus mid movies population = Ok (item, corpus) /\
    forall g,
      count_of g corpus
      = Z.of_nat (List.length (filter (has_genre movies g) population)) /\
      (0 <= count_of g corpus <= Z.of_nat (List.length population))%Z.
Proof.
  intros C. unfold build_corpus. rewrite build_corpus_from.
  destruct (document_frequencies_from movies population [] C) as (c & E & H).
  rewrite E. cbn [bind]. eexists. exists c. split; [reflexivity |].
  intros g. rewrite H.
  assert (Z0 : count_of g [] = 0%Z) by reflexivity. rewrite Z0.
  pose proof (filter_length_le (has_genre movies g) population).
  lia.
Qed.

Lemma corpus_counts_users_witness :
  exists item corpus,
    build_corpus "m" one_genre_catalog [[("k", 4); ("j", 2)]; [("j", 1)]]
    = Ok (item, corpus) /\
    count_of "G" corpus = 2%Z.
Proof.
  destruct (corpus_counts_users "m" one_genre_catalog
              [[("k", 4); ("j", 2)]; [("j", 1)]]) as (item & corpus & E & H).
  { intros v [<- | [<- | []]] mid I; simpl in I;
      repeat (destruct I as [<- | I]; [eexists; reflexivity |]); contradiction. }
  exists item, corpus. split; [exact E |].
  rewrite (proj1 (H "G")). reflexivity.
Defined.

(** X12. For the corpus that [get_rating] builds in genre mode, with every
    movie of every neighbour in the catalog, the smoothed inverse document
    frequency never raises: it is a positive number for every genre of the
    corpus, and [0] for every other genre. *)
Theorem idf_on_built_corpus (mid : string) (movies : catalog)
    (population : list vec) :
  (forall v, In v population -> catalog_covers movies v) ->
  exists item corpus,
    build_corpus mid movies population = Ok (item, corpus) /\
    forall g,
      (get g corpus = None /\
       inverse_document_frequency g corpus
         (Z.of_nat (List.length population)) true = Ok 0)
      \/ (exists total i,
             get g corpus = Some total /\
             inverse_document_frequency g corpus
               (Z.of_nat (List.length population)) true = Ok i /\
             0 < i).
Proof.
  intros C.
  destruct (build_corpus_ok mid movies population C) as ([item corpus] & E & P).
  cbn [snd] in P.
  assert (U : forall g,
             (0 <= count_of g corpus <= Z.of_nat (List.length population))%Z).
  { intros g. unfold build_corpus in E. rewrite build_corpus_from in E.
    destruct (document_frequencies_from movies population [] C) as (c & Ec & H).
    rewrite Ec in E. cbn [bind] in E. injection E as _ <-.
    rewrite H. assert (Z0 : count_of g [] = 0%Z) by reflexivity. rewrite Z0.
    pose proof (filter_length_le (has_genre movies g) population). lia. }
  exists item, corpus. split; [exact E |]. intros g.
  destruct (get g corpus) as [total |] eqn:G.
  - right. pose proof (P g total G) as Pt.
    specialize (U g). unfold count_of in U. rewrite G in U.
    exists total. eexists. split; [reflexivity |]. split.
    + apply (idf_smooth_present g corpus _ total G); lia.
    + apply ln_pos.
      assert (T : 0 < IZR total) by now apply IZR_lt.
      assert (L : IZR total < IZR (1 + Z.of_nat (List.length population)))
        by (apply IZR_lt; lia).
      apply Rmult_lt_reg_r with (IZR total); [exact T |].
      unfold Rdiv. rewrite Rmult_assoc, Rinv_l by lra. lra.
  - left. split; [reflexivity |]. unfold inverse_document_frequency.
    now rewrite G.
Qed.

Lemma idf_on_built_corpus_witness :
  exists item corpus,
    build_corpus "m" one_genre_catalog [[("k", 4); ("j", 2)]; [("j", 1)]]
    = Ok (item, corpus).
Proof.
  destruct (idf_on_built_corpus "m" one_genre_catalog
              [[("k", 4); ("j", 2)]; [("j", 1)]]) as (item & corpus & E & _).
  { intros v [<- | [<- | []]] mid I; simpl in I;
      repeat (destruct I as [<- | I]; [eexists; reflexivity |]); contradiction. }
  now exists item, corpus.
Defined.

(** ** Term frequency *)

Lemma get_in_values {V : Type} (k : string) (d : dict V) (v : V) :
  get k d = Some v -> In v (values d).
Proof.
  induction d as [| [k' v'] d IH]; [discriminate |]. cbn [get values map snd].
  destruct (String.eqb k k'); [intros [= ->]; now left | right; now apply IH].
Qed.

Lemma in_values_get {V : Type} (d : dict V) (v : V) :
  unique_keys d -> In v (values d) -> exists k, get k d = Some v.
Proof.
  unfold unique_keys. induction d as [| [k' v'] d IH]; intros N I; [contradiction |].
  inversion N as [| ? ? NI N']; subst. destruct I as [E | I].
  - exists k'. simpl in E. subst. apply get_cons_same.
  - destruct (IH N' I) as [k G]. exists k. rewrite get_cons_other; [exact G |].
    intros ->. apply NI. apply in_keys_get. now exists v.
Qed.

Lemma fold_max_bounds (l : list Z) (x : Z) :
  (x <= fold_left Z.max l x)%Z /\
  forall y, In y l -> (y <= fold_left Z.max l x)%Z.
Proof.
  revert x. induction l as [| z l IH]; intros x; simpl.
  - split; [lia | intros y []].
  - destruct (IH (Z.max x z)) as [H1 H2]. split; [lia |].
    intros y [<- | I]; [lia | now apply H2].
Qed.

Lemma fold_add_bounds (l : list Z) (x : Z) :
  (forall y, In y l -> 0 < y)%Z ->
  (x <= fold_left Z.add l x)%Z /\
  forall y, In y l -> (x + y <= fold_left Z.add l x)%Z.
Proof.
  revert x. induction l as [| z l IH]; intros x P; simpl.
  - split; [lia | intros y []].
  - destruct (IH (x + z)%Z) as [H1 H2]; [intros y I; apply P; now right |].
    pose proof (P z (or_introl eq_refl)). split; [lia |].
    intros y [<- | I]; [lia |]. specialize (H2 y I). lia.
Qed.

Lemma ratio_in_unit (c m : Z) :
  (0 <= c <= m)%Z -> (0 < m)%Z -> 0 <= IZR c / IZR m <= 1.
Proof.
  intros [L U] P.
  assert (0 < IZR m) by now apply IZR_lt.
  assert (0 <= IZR c) by now apply IZR_le.
  assert (IZR c <= IZR m) by now apply IZR_le.
  split.
  - apply Rmult_le_pos; [assumption |]. now apply Rlt_le, Rinv_0_lt_compat.
  - apply Rmult_le_reg_r with (IZR m); [assumption |].
    unfold Rdiv. rewrite Rmult_assoc, Rinv_l by lra. lra.
Qed.

(** X13. The four term-frequency policies on a dictionary of positive genre
    counts. Logarithmic: never raises, is at least [0], and is [0] exactly for a
    genre without an entry. Augmented: a number between [0.5] and [1] when
    there is an entry at all, and [ValueError] on the empty dictionary. Raw:
    a number between [0] and [1] when there is an entry at all, and
    [ZeroDivisionError] on the empty dictionary. Boolean: [1] for a genre
    with an entry and [0] otherwise. *)
Theorem term_frequency_ranges (genre_frequencies : dict Z) (genre : string) :
  unique_keys genre_frequencies -> positive_counts genre_frequencies ->
  (exists w, term_frequency genre_frequencies genre false false true = Ok w /\
             0 <= w /\ (w = 0 <-> get genre genre_frequencies = None)) /\
  (forall boolean logarithmic,
      (genre_frequencies = [] /\
       term_frequency genre_frequencies genre true boolean logarithmic
       = Raise ValueError)
      \/ (genre_frequencies <> [] /\
          exists w, term_frequency genre_frequencies genre true boolean logarithmic
                    = Ok w /\ 0.5 <= w <= 1)) /\
  ((genre_frequencies = [] /\
    term_frequency genre_frequencies genre false false false
    = Raise ZeroDivisionError)
   \/ (genre_frequencies <> [] /\
       exists w, term_frequency genre_frequencies genre false false false
                 = Ok w /\ 0 <= w <= 1)) /\
  (forall logarithmic,
      term_frequency genre_frequencies genre false true logarithmic
      = Ok (if contains genre genre_frequencies then 1 else 0)).
Proof.
  intros U P.
  assert (C0 : (0 <= count_of genre genre_frequencies)%Z)
    by now apply count_of_nonneg.
  split; [| split; [| split]].
  - unfold term_frequency.
    rewrite pylog_ok by (apply IZR_lt; lia).
    eexists. split; [reflexivity |]. split.
    + rewrite <- ln_1. apply ln_le_compat; [lra |].
      apply IZR_le. lia.
    + unfold count_of in *. destruct (get genre genre_frequencies) as [c |] eqn:G.
      * pose proof (P genre c G). split; [| discriminate].
        intros Z. exfalso.
        assert (0 < ln (IZR (1 + c))) by (apply ln_pos; apply IZR_lt; lia).
        lra.
      * split; [reflexivity |]. intros _. replace (1 + 0)%Z with 1%Z by lia.
        apply ln_1.
  - intros boolean logarithmic. unfold term_frequency.
    destruct genre_frequencies as [| [k c] d]; [left; now split | right].
    split; [discriminate |]. cbn [values map snd pymaxZ bind].
    destruct (fold_max_bounds (values d) c) as [M1 M2].
    fold (values d).
    assert (Pc : (0 < c)%Z) by (apply (P k c); apply get_cons_same).
    assert (Um : (count_of genre ((k, c) :: d)
                  <= fold_left Z.max (values d) c)%Z).
    { unfold count_of. destruct (get genre ((k, c) :: d)) as [x |] eqn:G; [| lia].
      apply get_in_values in G. destruct G as [<- | I]; [exact M1 | now apply M2]. }
    rewrite pydiv_ok by (apply not_0_IZR; lia). cbn [bind].
    eexists. split; [reflexivity |].
    pose proof (ratio_in_unit (count_of genre ((k, c) :: d))
                  (fold_left Z.max (values d) c) ltac:(lia) ltac:(lia)).
    lra.
  - unfold term_frequency.
    destruct genre_frequencies as [| [k c] d]; [left; split; [reflexivity |] | right].
    + cbn. now apply pydiv_zero.
    + split; [discriminate |].
      assert (Pv : forall y, In y (values ((k, c) :: d)) -> (0 < y)%Z).
      { intros y I. destruct (in_values_get _ y U I) as [k0 G].
        exact (P k0 y G). }
      destruct (fold_add_bounds (values ((k, c) :: d)) 0 Pv) as [S1 S2].
      assert (Pc : (0 < c)%Z) by (apply Pv; now left).
      assert (S : (0 < pysumZ (values ((k, c) :: d)))%Z).
      { unfold pysumZ. specialize (S2 c (or_introl eq_refl)). lia. }
      assert (Us : (count_of genre ((k, c) :: d)
                    <= pysumZ (values ((k, c) :: d)))%Z).
      { unfold count_of. destruct (get genre ((k, c) :: d)) as [x |] eqn:G; [| lia].
        apply get_in_values in G. specialize (S2 x G). unfold pysumZ. lia. }
      rewrite pydiv_ok by (apply not_0_IZR; lia).
      eexists. split; [reflexivity |].
      apply ratio_in_unit; lia.
  - intros logarithmic. reflexivity.
Qed.

Lemma term_frequency_ranges_witness :
  exists w, term_frequency [("G", 2%Z); ("H", 1%Z)] "H" false false true = Ok w /\
            0 <= w.
Proof.
  destruct (term_frequency_ranges [("G", 2%Z); ("H", 1%Z)] "H")
    as ((w & E & L & _) & _).
  - unfold unique_keys. simpl. repeat constructor; simpl; intuition discriminate.
  - intros k c. simpl.
    destruct (String.eqb k "G"); [intros [= <-]; lia |].
    destruct (String.eqb k "H"); [intros [= <-]; lia | discriminate].
  - exists w. now split.
Defined.

(** ** The two tf-idf vectors *)

Lemma keys_set_new {V : Type} (k : string) (v : V) (d : dict V) :
  get k d = None -> keys (set k v d) = (keys d ++ [k])%list.
Proof.
  induction d as [| [k' v'] d IH]; intros G; [reflexivity |].
  cbn [get] in G. cbn [set]. destruct (String.eqb k k'); [discriminate |].
  unfold keys in *. cbn [map fst app]. now rewrite IH.
Qed.

Lemma genre_tokens_app (movies : catalog) (v w : vec) :
  genre_tokens movies (v ++ w)%list
  = (genre_tokens movies v ++ genre_tokens movies w)%list.
Proof. unfold genre_tokens. apply flat_map_app. Qed.

(** X14. The two tf-idf vectors that [get_genre_weight] builds have the same
    keys in the same order, no key twice, and the keys are the genres of the
    movies the primary user rated: the other user's vector has an entry for
    each of them and for no other genre, whatever the other user rated. *)
Theorem genre_vectors_keys (our : vec) (gf our_gf : dict Z) (movies : catalog)
    (corpus : dict Z) (n : Z) (augmented boolean logarithmic smooth : bool)
    (other_vector our_vector : vec) :
  genre_vectors our gf our_gf movies corpus n augmented boolean logarithmic smooth
  = Ok (other_vector, our_vector) ->
  keys other_vector = keys our_vector /\
  unique_keys our_vector /\
  forall g, In g (keys our_vector) <-> In g (genre_tokens movies our).
Proof.
  intros E.
  pose (Inv := fun (T : list string) (st : vec * vec) =>
                 keys (fst st) = keys (snd st) /\
                 NoDup (keys (snd st)) /\
                 forall g, In g (keys (snd st)) <-> In g T).
  assert (Inner : forall (gs : list string) (T : list string) (st st' : vec * vec),
             Inv T st ->
             for_each
               (fun '(other_vector, our_vector) genre =>
                  if contains genre our_vector then Ok (other_vector, our_vector)
                  else
                    x <- tf_idf gf genre corpus n
                           augmented boolean logarithmic smooth ;;
                    y <- tf_idf our_gf genre corpus n
                           augmented boolean logarithmic smooth ;;
                    Ok (set genre x other_vector, set genre y our_vector))
               gs st = Ok st' ->
             Inv (T ++ gs)%list st').
  { induction gs as [| g gs IH]; intros T [ov uv] st' I F; cbn [for_each] in F.
    - injection F as <-. now rewrite app_nil_r.
    - replace (T ++ g :: gs)%list with ((T ++ [g]) ++ gs)%list
        by (rewrite <- app_assoc; reflexivity).
      destruct I as (K & N & M). cbn [fst snd] in K, N, M.
      unfold contains in F. destruct (get g uv) as [y0 |] eqn:G; cbn [bind] in F.
      + apply (IH (T ++ [g])%list (ov, uv) st'); [| exact F].
        split; [exact K |]. split; [exact N |]. cbn [fst snd]. intros h.
        rewrite M, in_app_iff. split; [tauto |].
        intros [I | [<- | []]]; [exact I |]. apply M. apply in_keys_get.
        now exists y0.
      + destruct (tf_idf gf g corpus n augmented boolean logarithmic smooth)
          as [x |]; cbn [bind] in F; [| discriminate].
        destruct (tf_idf our_gf g corpus n augmented boolean logarithmic smooth)
          as [y |]; cbn [bind] in F; [| discriminate].
        apply (IH (T ++ [g])%list (set g x ov, set g y uv) st'); [| exact F].
        assert (Go : get g ov = None).
        { apply get_none_not_in. rewrite K. now apply get_none_not_in. }
        unfold Inv. cbn [fst snd].
        rewrite (keys_set_new g x ov Go), (keys_set_new g y uv G).
        split; [now rewrite K |]. split.
        * apply NoDup_app; [exact N | repeat constructor; intros [] |].
          intros h Ih [<- | []]. apply get_none_not_in in G. contradiction.
        * intros h. rewrite !in_app_iff, M. tauto. }
  unfold genre_vectors in E.
  pose proof (for_each_trace
                (fun (done : list (string * R)) (st : vec * vec) =>
                   Inv (genre_tokens movies done) st)
                (fun st '(mid, _) =>
                   m <- item mid movies ;;
                   for_each
                     (fun '(other_vector, our_vector) genre =>
                        if contains genre our_vector
                        then Ok (other_vector, our_vector)
                        else
                          x <- tf_idf gf genre corpus n
                                 augmented boolean logarithmic smooth ;;
                          y <- tf_idf our_gf genre corpus n
                                 augmented boolean logarithmic smooth ;;
                          Ok (set genre x other_vector, set genre y our_vector))
                     (genres m) st)
                our [] ([], []) (other_vector, our_vector)) as H.
  cbn [app] in H. apply H; [| | exact E].
  - intros done st [mid r] st' B I. unfold item in B.
    destruct (get mid movies) as [m |] eqn:G; cbn [bind] in B; [| discriminate].
    rewrite genre_tokens_app. cbn [genre_tokens flat_map]. rewrite G, app_nil_r.
    exact (Inner (genres m) (genre_tokens movies done) st st' I B).
  - unfold Inv. cbn. split; [reflexivity |]. split; [constructor | tauto].
Qed.

Lemma genre_vectors_keys_witness :
  exists other_vector our_vector,
    genre_vectors [("k", 4); ("j", 2)] [("G", 1%Z)] [("G", 2%Z)]
      one_genre_catalog [("G", 1%Z)] 1 false false true true
    = Ok (other_vector, our_vector) /\
    keys other_vector = keys our_vector.
Proof.
  assert (P : forall c, (0 < c)%Z -> positive_counts [("G", c)]).
  { intros c Pc k x. simpl. destruct (String.eqb k "G"); [| discriminate].
    now intros [= <-]. }
  destruct (genre_vectors_ok [("k", 4); ("j", 2)] [("G", 1%Z)] [("G", 2%Z)]
              one_genre_catalog [("G", 1%Z)] 1) as ([ov uv] & E).
  - intros mid [<- | [<- | []]]; eexists; reflexivity.
  - apply P. lia.
  - apply P. lia.
  - apply P. lia.
  - lia.
  - exists ov, uv. split; [exact E |].
    exact (proj1 (genre_vectors_keys _ _ _ _ _ _ _ _ _ _ ov uv E)).
Defined.

(** ** What the prediction depends on, and how far it can go *)

Lemma contributors_idempotent (mid : string) (population : list vec) :
  contributors mid (contributors mid population) = contributors mid population.
Proof.
  unfold contributors. induction population as [| v population IH]; [reflexivity |].
  cbn [filter]. destruct (contains mid v) eqn:C; [| exact IH].
  cbn [filter]. now rewrite C, IH.
Qed.

(** X15. Outside genre mode the prediction reads neither the catalog nor the
    neighbours that did not rate the target item: dropping those neighbours
    and changing the catalog gives the same result or the same exception. *)
Theorem prediction_reads_raters_only (mid : string) (movies movies' : catalog)
    (our : vec) (population : list vec) (our_avg : R)
    (cosine euclidean : bool) :
  get_rating mid movies our population our_avg false cosine euclidean
  = get_rating mid movies' our (filter (contains mid) population) our_avg
      false cosine euclidean.
Proof.
  rewrite !get_rating_plain. fold (contributors mid population).
  now rewrite contributors_idempotent.
Qed.

Lemma collect_length {A B : Type} (f : A -> result B) (l : list A) (bs : list B) :
  collect f l = Ok bs -> List.length bs = List.length l.
Proof.
  revert bs. induction l as [| a l IH]; intros bs; cbn [collect].
  - now intros [= <-].
  - destruct (f a) as [b |]; cbn [bind]; [| discriminate].
    destruct (collect f l) as [bs' |]; cbn [bind]; [| discriminate].
    intros [= <-]. cbn [List.length]. now rewrite (IH bs' eq_refl).
Qed.




(** ** The rating tables *)

Lemma fold_left_trace {A S : Type} (Inv : list A -> S -> Prop)
    (f : S -> A -> S) (l : list A) :
  forall (done : list A) (s : S),
    (forall done s a, Inv done s -> Inv (done ++ [a])%list (f s a)) ->
    Inv done s -> Inv (done ++ l)%list (fold_left f l s).
Proof.
  induction l as [| a l IH]; intros done s H I; cbn [fold_left].
  - now rewrite app_nil_r.
  - replace (done ++ a :: l)%list with ((done ++ [a]) ++ l)%list
      by (rewrite <- app_assoc; reflexivity).
    apply IH; [exact H | now apply H].
Qed.

Lemma keys_set_old {V : Type} (k : string) (v : V) (d : dict V) :
  get k d <> None -> keys (set k v d) = keys d.
Proof.
  induction d as [| [k' v'] d IH]; intros G; [now contradiction G |].
  cbn [get] in G. cbn [set]. destruct (String.eqb_spec k k') as [-> | N].
  - reflexivity.
  - unfold keys in *. cbn [map fst]. now rewrite IH.
Qed.

Lemma unique_keys_set {V : Type} (k : string) (v : V) (d : dict V) :
  unique_keys d -> unique_keys (set k v d).
Proof.
  unfold unique_keys. intros N. destruct (get k d) as [x |] eqn:G.
  - rewrite keys_set_old; [exact N | congruence].
  - rewrite keys_set_new by exact G.
    apply NoDup_app; [exact N | repeat constructor; intros [] |].
    intros h Ih [<- | []]. apply get_none_not_in in G. contradiction.
Qed.

Lemma set_not_nil {V : Type} (k : string) (v : V) (d : dict V) : set k v d <> [].
Proof.
  destruct d as [| [k' v'] d]; cbn [set]; [discriminate |].
  destruct (String.eqb k k'); discriminate.
Qed.

Lemma set_add_nodup (x : string) (s : pyset) : NoDup s -> NoDup (set_add x s).
Proof.
  intros N. unfold set_add. destruct (set_mem x s) eqn:M; [exact N |].
  apply NoDup_app; [exact N | repeat constructor; intros [] |].
  intros h Ih [<- | []]. unfold set_mem in M.
  assert (E : existsb (String.eqb x) s = true).
  { apply existsb_exists. exists x. split; [exact Ih | apply String.eqb_refl]. }
  congruence.
Qed.

Lemma set_add_not_nil (x : string) (s : pyset) : set_add x s <> [].
Proof.
  unfold set_add. destruct (set_mem x s) eqn:M.
  - intros ->. discriminate.
  - destruct s; discriminate.
Qed.

Lemma get_set_same_inv {V : Type} (k : string) (v w : V) (d : dict V) :
  get k (set k v d) = Some w -> v = w.
Proof. rewrite get_set_same. now intros [= ->]. Qed.

Lemma get_set_other_inv {V : Type} (k k' : string) (v w : V) (d : dict V) :
  k' <> k -> get k' (set k v d) = Some w -> get k' d = Some w.
Proof. intros N. now rewrite get_set_other. Qed.

Lemma load_row_after (done : list row) (tables : dict vec * dict pyset)
    (r : row) :
  tables_after done tables -> tables_after (done ++ [r])%list (load_row tables r).
Proof.
  destruct tables as [U M]. destruct r as [[u m] x].
  intros (I1 & I2 & I3 & I4 & I5 & I6 & I7). cbn [fst snd] in *.
  unfold load_row. cbn [fst snd].
  set (v' := match get u U with
             | Some v => set m x v
             | None => [(m, x)]
             end).
  set (s' := match get m M with
             | Some s => set_add u s
             | None => [u]
             end).
  assert (EU : match get u U with
               | Some v => set u (set m x v) U
               | None => set u [(m, x)] U
               end = set u v' U) by (subst v'; now destruct (get u U)).
  assert (EM : match get m M with
               | Some s => set m (set_add u s) M
               | None => set m [u] M
               end = set m s' M) by (subst s'; now destruct (get m M)).
  rewrite EU, EM. clear EU EM.
  assert (Kv : forall mid, In mid (keys v') <->
                           mid = m \/ rated_in U u mid).
  { intros mid. subst v'. unfold rated_in. destruct (get u U) as [v |] eqn:G.
    - rewrite keys_set. split.
      + intros [E | I]; [now left | right; now exists v].
      + intros [E | (v0 & [= <-] & I)]; [now left | now right].
    - simpl. split.
      + intros [E | []]; now left.
      + intros [E | (v0 & D & _)]; [now left | discriminate]. }
  assert (Ks : forall uid, In uid s' <-> uid = u \/ indexed_in M uid m).
  { intros uid. subst s'. unfold indexed_in. destruct (get m M) as [s |] eqn:G.
    - rewrite in_set_add. split.
      + intros [E | I]; [now left | right; now exists s].
      + intros [E | (s0 & [= <-] & I)]; [now left | now right].
    - simpl. split.
      + intros [E | []]; now left.
      + intros [E | (s0 & D & _)]; [now left | discriminate]. }
  assert (Rstep : forall uid mid,
             rated_in (set u v' U) uid mid <->
             rated_in U uid mid \/ (uid = u /\ mid = m)).
  { intros uid mid. unfold rated_in at 1.
    destruct (string_dec uid u) as [-> | N].
    - rewrite get_set_same. split.
      + intros (v0 & [= <-] & I). apply Kv in I. tauto.
      + intros H. exists v'. split; [reflexivity |]. apply Kv. tauto.
    - rewrite get_set_other by exact N. split.
      + intros H. now left.
      + intros [H | [E _]]; [exact H | contradiction]. }
  assert (Sstep : forall uid mid,
             indexed_in (set m s' M) uid mid <->
             indexed_in M uid mid \/ (uid = u /\ mid = m)).
  { intros uid mid. unfold indexed_in at 1.
    destruct (string_dec mid m) as [-> | N].
    - rewrite get_set_same. split.
      + intros (s0 & [= <-] & I). apply Ks in I. tauto.
      + intros H. exists s'. split; [reflexivity |]. apply Ks. tauto.
    - rewrite get_set_other by exact N. split.
      + intros H. now left.
      + intros [H | [_ E]]; [exact H | contradiction]. }
  assert (Dstep : forall uid mid,
             (exists r, In (uid, mid, r) (done ++ [(u, m, x)])%list) <->
             (exists r, In (uid, mid, r) done) \/ (uid = u /\ mid = m)).
  { intros uid mid. split.
    - intros (r & I). apply in_app_iff in I. destruct I as [I | [[= -> -> ->] | []]].
      + left. now exists r.
      + now right.
    - intros [(r & I) | [-> ->]].
      + exists r. apply in_app_iff. now left.
      + exists x. apply in_app_iff. right. now left. }
  split; [now apply unique_keys_set |].
  split; [now apply unique_keys_set |].
  split.
  { intros uid v H. destruct (string_dec uid u) as [-> | N].
    - pose proof (get_set_same_inv u v' v U H) as E. subst v. subst v'.
      destruct (get u U) as [v0 |] eqn:G.
      + split; [apply unique_keys_set; exact (proj1 (I3 u v0 G))
               | apply set_not_nil].
      + split; [| discriminate].
        unfold unique_keys. simpl. repeat constructor. intros [].
    - apply (I3 uid). exact (get_set_other_inv u uid v' v U N H). }
  split.
  { intros mid s H. destruct (string_dec mid m) as [-> | N].
    - pose proof (get_set_same_inv m s' s M H) as E. subst s. subst s'.
      destruct (get m M) as [s0 |] eqn:G.
      + split; [apply set_add_nodup; exact (proj1 (I4 m s0 G))
               | apply set_add_not_nil].
      + split; [| discriminate]. repeat constructor. intros [].
    - apply (I4 mid). exact (get_set_other_inv m mid s' s M N H). }
  split.
  { intros uid mid. rewrite Rstep, Dstep, I5. reflexivity. }
  split.
  { intros uid mid. rewrite Sstep, Dstep, I6. reflexivity. }
  intros uid v mid r G Gm. apply in_app_iff.
  destruct (string_dec uid u) as [-> | N].
  - pose proof (get_set_same_inv u v' v U G) as E. subst v. subst v'.
    destruct (get u U) as [v0 |] eqn:G0.
    + destruct (string_dec mid m) as [-> | Nm].
      * rewrite get_set_same in Gm. injection Gm as <-. right. now left.
      * rewrite get_set_other in Gm by exact Nm. left.
        exact (I7 u v0 mid r G0 Gm).
    + cbn [get] in Gm. destruct (String.eqb_spec mid m) as [-> | Nm];
        [| discriminate].
      injection Gm as <-. right. now left.
  - left. apply (I7 uid v mid r); [| exact Gm].
    exact (get_set_other_inv u uid v' v U N G).
Qed.

Lemma load_ratings_after (rows : list row) :
  tables_after rows (load_ratings rows).
Proof.
  unfold load_ratings.
  apply (fold_left_trace tables_after load_row rows [] ([], [])).
  - intros done s a. apply load_row_after.
  - unfold tables_after, unique_keys, rated_in, indexed_in. cbn [fst snd get keys map].
    split; [constructor |]. split; [constructor |].
    split; [intros; discriminate |]. split; [intros; discriminate |].
    split; [intros uid mid; split;
            [intros (? & ? & ?); discriminate | intros (? & [])] |].
    split; [intros uid mid; split;
            [intros (? & ? & ?); discriminate | intros (? & [])] |].
    intros; discriminate.
Qed.

(** X17. The two tables that cross-validation builds from the rows. No user,
    no item of a user, no item and no member of a set stands twice; no vector
    and no set is empty; a user rated an item in the user table exactly when
    the user is in the item's set, and exactly when some row says so; and
    every rating in a vector is the rating of some row of that user and
    item. *)
Theorem load_ratings_tables (rows : list row) :
  tables_after rows (load_ratings rows).
Proof. apply load_ratings_after. Qed.

(** ** The whole cross-validation run *)

Lemma try_score_step (real_rating : R) (prediction : result R)
    (dif : R) (length : Z) :
  (forall e, prediction = Raise e -> e = ZeroDivisionError) ->
  exists after,
    try_score real_rating prediction dif length = Ok after /\
    dif <= fst after /\ (length - 1 <= snd after)%Z.
Proof.
  intros H. destruct prediction as [p | e]; cbn [try_score].
  - eexists. split; [reflexivity |]. cbn [fst snd].
    pose proof (pow2_ge_0 (real_rating - p)). split; [lra | lia].
  - rewrite (H e eq_refl). eexists. split; [reflexivity |]. cbn [fst snd].
    split; [lra | lia].
Qed.

Lemma in_get {V : Type} (k : string) (v : V) (d : dict V) :
  unique_keys d -> In (k, v) d -> get k d = Some v.
Proof.
  unfold unique_keys. induction d as [| [k' v'] d IH]; intros N I; [contradiction |].
  inversion N as [| ? ? NI N']; subst. destruct I as [[= -> ->] | I].
  - apply get_cons_same.
  - rewrite get_cons_other; [now apply IH |].
    intros ->. apply NI. unfold keys. apply in_map_iff. now exists (k', v).
Qed.

Lemma lookups_from (uid_to_ratings : dict vec) (uids : list string)
    (acc : list vec) :
  (forall u, In u uids -> exists v, get u uid_to_ratings = Some v) ->
  exists population,
    for_each (fun acc uid => v <- item uid uid_to_ratings ;; Ok (acc ++ [v])%list)
      uids acc = Ok population /\
    forall v, In v population ->
              In v acc \/ exists u, get u uid_to_ratings = Some v.
Proof.
  revert acc. induction uids as [| u uids IH]; intros acc H.
  - exists acc. split; [reflexivity |]. intros v I. now left.
  - destruct (H u (or_introl eq_refl)) as [v G].
    cbn [for_each]. unfold item at 1. rewrite G. cbn [bind].
    destruct (IH (acc ++ [v])%list) as (population & E & Hp).
    { intros w I. apply H. now right. }
    exists population. split; [exact E |]. intros w I.
    destruct (Hp w I) as [Ia | Hu]; [| now right].
    apply in_app_iff in Ia. destruct Ia as [Ia | [<- | []]]; [now left |].
    right. now exists u.
Qed.

Section Run.
Variable set_iter : pyset -> list string.
Variable rand : nat -> R.
Variable movies : catalog.
Variable rows : list row.
Hypothesis members : iterates_members set_iter.
Hypothesis complete : catalog_complete movies rows.

Let uid_to_ratings := fst (load_ratings rows).
Let mid_to_uids := snd (load_ratings rows).

Lemma table_vector_covered (uid : string) (v : vec) :
  get uid uid_to_ratings = Some v -> catalog_covers movies v.
Proof.
  intros G mid I.
  destruct (load_ratings_after rows) as (_ & _ & _ & _ & I5 & _).
  destruct (proj1 (I5 uid mid)) as [r Ir]; [now exists v |].
  exact (complete uid mid r Ir).
Qed.

Lemma table_population (uid test_mid : string) (v : vec) :
  get uid uid_to_ratings = Some v -> In test_mid (keys v) ->
  exists population,
    neighbor_population set_iter uid_to_ratings mid_to_uids test_mid
    = Ok population /\
    forall w, In w population -> catalog_covers movies w.
Proof.
  intros G I.
  destruct (load_ratings_after rows) as (_ & _ & _ & _ & I5 & I6 & _).
  fold uid_to_ratings in I5. fold mid_to_uids in I6.
  assert (Hi : indexed_in mid_to_uids uid test_mid).
  { apply (proj2 (I6 uid test_mid)). apply (proj1 (I5 uid test_mid)).
    exists v. split; [exact G | exact I]. }
  destruct Hi as (s & Gs & _).
  unfold neighbor_population, item at 1. rewrite Gs. cbn [bind].
  destruct (lookups_from uid_to_ratings (set_iter s) []) as (population & E & Hp).
  { intros u Iu. apply (proj1 (members s u)) in Iu.
    assert (Hr : rated_in uid_to_ratings u test_mid).
    { apply (proj2 (I5 u test_mid)). apply (proj1 (I6 u test_mid)).
      exists s. split; [exact Gs | exact Iu]. }
    destruct Hr as (w & Gw & _). now exists w. }
  exists population. split; [exact E |]. intros w Iw.
  destruct (Hp w Iw) as [[] | [u Gu]]. now apply table_vector_covered with u.
Qed.

Lemma score_sample_bounds (uid : string) (v : vec) (t : tally) (test_mid : string)
    (c : Z) :
  get uid uid_to_ratings = Some v -> In test_mid (keys v) ->
  (2 <= List.length v)%nat ->
  tally_bounds c t ->
  exists t',
    score_sample set_iter movies uid_to_ratings mid_to_uids v t test_mid = Ok t' /\
    tally_bounds (c - 1) t'.
Proof.
  intros G I L B.
  destruct (load_ratings_after rows) as (_ & _ & I3 & _).
  destruct (I3 uid v G) as [N _].
  destruct (table_population uid test_mid v G I) as (population & P & Cp).
  pose proof (table_vector_covered uid v G) as Cv.
  apply in_keys_get in I. destruct I as [real_rating Gr].
  unfold score_sample. rewrite P. cbn [bind]. unfold item. rewrite Gr. cbn [bind].
  set (test_ratings :=
         filter (fun '(mid, _) => negb (String.eqb mid test_mid)) v).
  rewrite pysum_total.
  assert (A : pydiv (total (values test_ratings)) (len test_ratings)
              = Ok (average test_ratings)).
  { apply pydiv_ok. unfold len. apply not_0_INR.
    pose proof (others_remain v test_mid L N) as O.
    fold test_ratings in O. destruct test_ratings; [contradiction | discriminate]. }
  rewrite A. cbn [bind].
  set (predict :=
         get_rating test_mid movies test_ratings population (average test_ratings)).
  destruct B as (B1 & B2 & B3 & B4 & B5 & B6 & B7 & B8).
  destruct (try_score_step real_rating (predict false false false)
              (pearson_dif t) (pearson_length t)) as ([pd pl] & -> & Sp1 & Sp2).
  { intros e. apply get_rating_plain_raise. }
  destruct (try_score_step real_rating (predict false true false)
              (cosine_dif t) (cosine_length t)) as ([cd cl] & -> & Sc1 & Sc2).
  { intros e. apply get_rating_plain_raise. }
  destruct (try_score_step real_rating (predict false false true)
              (euclidean_dif t) (euclidean_length t)) as ([ed el] & -> & Se1 & Se2).
  { intros e. apply get_rating_plain_raise. }
  destruct (try_score_step real_rating (predict true false false)
              (genre_dif t) (genre_length t)) as ([gd gl] & -> & Sg1 & Sg2).
  { intros e. apply get_rating_genre_raise; [| exact Cp].
    now apply catalog_covers_filter. }
  cbn [bind fst snd] in *. eexists. split; [reflexivity |].
  unfold tally_bounds.
  cbn [pearson_dif pearson_length cosine_dif cosine_length euclidean_dif
       euclidean_length genre_dif genre_length].
  repeat split; (lra || lia).
Qed.

Lemma score_samples_bounds (uid : string) (v : vec) (mids : list string)
    (t : tally) (c : Z) :
  get uid uid_to_ratings = Some v ->
  (forall mid, In mid mids -> In mid (keys v)) ->
  (2 <= List.length v)%nat ->
  tally_bounds (c + Z.of_nat (List.length mids)) t ->
  exists t',
    for_each (score_sample set_iter movies uid_to_ratings mid_to_uids v) mids t
    = Ok t' /\
    tally_bounds c t'.
Proof.
  intros G. revert t. induction mids as [| mid mids IH]; intros t S L B.
  - exists t. split; [reflexivity |]. cbn [List.length] in B.
    now replace (c + Z.of_nat 0)%Z with c in B by lia.
  - destruct (score_sample_bounds uid v t mid _ G (S mid (or_introl eq_refl)) L B)
      as (t1 & E & B1).
    cbn [for_each]. rewrite E. cbn [bind]. apply IH; [| exact L |].
    + intros m Im. apply S. now right.
    + cbn [List.length] in B1.
      now replace (c + Z.of_nat (List.length mids))%Z
        with (c + Z.of_nat (Datatypes.S (List.length mids)) - 1)%Z by lia.
Qed.

Lemma score_user_bounds (ratio : R) (uid : string) (v : vec) (t : tally)
    (draws : nat) :
  get uid uid_to_ratings = Some v ->
  tally_bounds 0 t ->
  exists t' draws',
    score_user set_iter rand ratio movies uid_to_ratings mid_to_uids
      (t, draws) (uid, v) = Ok (t', draws') /\
    tally_bounds 0 t'.
Proof.
  intros G B. unfold score_user. cbn [fst snd].
  destruct (Nat.leb_spec (List.length v) 1) as [Le | Gt].
  - now exists t, draws.
  - destruct (Rle_dec ratio (rand draws)).
    + now exists t, (S draws).
    + destruct (score_samples_bounds uid v (keys v)
                  (mkTally (cosine_dif t) (pearson_dif t) (euclidean_dif t)
                     (genre_dif t)
                     (cosine_length t + Z.of_nat (List.length v))
                     (pearson_length t + Z.of_nat (List.length v))
                     (euclidean_length t + Z.of_nat (List.length v))
                     (genre_length t + Z.of_nat (List.length v))) 0 G)
        as (t' & E & B').
      * auto.
      * lia.
      * destruct B as (B1 & B2 & B3 & B4 & B5 & B6 & B7 & B8).
        unfold tally_bounds, keys. rewrite length_map.
        cbn [pearson_dif pearson_length cosine_dif cosine_length euclidean_dif
             euclidean_length genre_dif genre_length].
        repeat split; (lra || lia).
      * rewrite E. cbn [bind]. now exists t', (S draws).
Qed.

Lemma score_all_bounds (percent : Z) :
  exists t draws,
    score_all set_iter rand percent movies rows = Ok (t, draws) /\
    tally_bounds 0 t.
Proof.
  unfold score_all. fold uid_to_ratings. fold mid_to_uids.
  destruct (load_ratings_after rows) as (I1 & _).
  fold uid_to_ratings in I1.
  destruct (for_each_invariant (fun st : tally * nat => tally_bounds 0 (fst st))
              (score_user set_iter rand (IZR percent / 100) movies
                 uid_to_ratings mid_to_uids)
              uid_to_ratings (tally0, 0%nat)) as ([t draws] & E & B).
  - intros [t draws] [uid v] I B. cbn [fst] in B.
    destruct (score_user_bounds (IZR percent / 100) uid v t draws
                (in_get uid v uid_to_ratings I1 I) B) as (t' & draws' & E & B').
    exists (t', draws'). now split.
  - unfold tally_bounds, tally0. cbn. repeat split; (lra || lia).
  - now exists t, draws.
Qed.

End Run.

Lemma rmse_cases (dif : R) (length : Z) :
  0 <= dif -> (0 <= length)%Z ->
  (length = 0%Z /\ rmse dif length = Raise ZeroDivisionError) \/
  ((0 < length)%Z /\ exists x, rmse dif length = Ok x /\ 0 <= x).
Proof.
  intros D L. unfold rmse. destruct (Z.eq_dec length 0) as [-> | N].
  - left. split; [reflexivity |]. now rewrite pydiv_zero.
  - right. split; [lia |].
    assert (0 < IZR length) by (apply IZR_lt; lia).
    rewrite pydiv_ok by lra. cbn [bind].
    assert (0 <= dif / IZR length).
    { apply Rmult_le_pos; [exact D |]. now apply Rlt_le, Rinv_0_lt_compat. }
    rewrite pysqrt_ok by assumption. eexists. split; [reflexivity |].
    apply sqrt_pos.
Qed.

(** X18. The whole cross-validation run. When the catalog has every rated
    movie, the loop over the users never raises, for every percent and every
    outcome of the random draws, and leaves sums and counts that are not
    negative. The run then raises [ZeroDivisionError] when one of the four
    counts is zero, and otherwise returns four numbers that are not
    negative; it raises nothing else. *)
Theorem cross_validation_outcome (set_iter : pyset -> list string)
    (rand : nat -> R) (percent : Z) (movies : catalog) (rows : list row) :
  iterates_members set_iter -> catalog_complete movies rows ->
  exists t draws,
    score_all set_iter rand percent movies rows = Ok (t, draws) /\
    tally_bounds 0 t /\
    (((cosine_length t = 0 \/ pearson_length t = 0 \/
       euclidean_length t = 0 \/ genre_length t = 0)%Z /\
      calculate_rmse_for_each_distance_measure set_iter rand percent movies rows
      = Raise ZeroDivisionError)
     \/ ((0 < cosine_length t /\ 0 < pearson_length t /\
          0 < euclidean_length t /\ 0 < genre_length t)%Z /\
         exists c p e g,
           calculate_rmse_for_each_distance_measure set_iter rand percent
             movies rows = Ok (c, p, e, g) /\
           0 <= c /\ 0 <= p /\ 0 <= e /\ 0 <= g)).
Proof.
  intros Hs Hc.
  destruct (score_all_bounds set_iter rand movies rows Hs Hc percent)
    as (t & draws & E & B).
  exists t, draws. split; [exact E |]. split; [exact B |].
  unfold calculate_rmse_for_each_distance_measure. rewrite E. cbn [bind fst].
  destruct B as (B1 & B2 & B3 & B4 & B5 & B6 & B7 & B8). unfold report.
  destruct (rmse_cases (cosine_dif t) (cosine_length t) B1 B5)
    as [[Z ->] | [P (c & -> & Pc)]]; cbn [bind]; [left; tauto |].
  destruct (rmse_cases (pearson_dif t) (pearson_length t) B2 B6)
    as [[Z ->] | [Pp (p & -> & Ppp)]]; cbn [bind]; [left; tauto |].
  destruct (rmse_cases (euclidean_dif t) (euclidean_length t) B3 B7)
    as [[Z ->] | [Pe (e & -> & Pee)]]; cbn [bind]; [left; tauto |].
  destruct (rmse_cases (genre_dif t) (genre_length t) B4 B8)
    as [[Z ->] | [Pg (g & -> & Pgg)]]; cbn [bind]; [left; tauto |].
  right. split; [tauto |]. exists c, p, e, g. tauto.
Qed.

Lemma cross_validation_outcome_witness :
  iterates_members insertion_order /\
  catalog_complete one_genre_catalog lone_user_rows /\
  exists t draws,
    score_all insertion_order (fun _ => 0) 50 one_genre_catalog lone_user_rows
    = Ok (t, draws) /\
    tally_bounds 0 t.
Proof.
  assert (Hs : iterates_members insertion_order).
  { intros s u. unfold insertion_order. tauto. }
  assert (Hc : catalog_complete one_genre_catalog lone_user_rows).
  { intros uid mid r [[= <- <- <-] | [[= <- <- <-] | []]]; eexists; reflexivity. }
  split; [exact Hs |]. split; [exact Hc |].
  destruct (cross_validation_outcome insertion_order (fun _ => 0) 50
              one_genre_catalog lone_user_rows Hs Hc) as (t & draws & E & B & _).
  exists t, draws. split; [exact E | exact B].
Defined.

(** ** Runs in which no user is scored *)

Lemma nodup_all_equal {A : Type} (l : list A) :
  NoDup l -> (forall a b, In a l -> In b l -> a = b) -> (List.length l <= 1)%nat.
Proof.
  intros N H. destruct l as [| a [| b l]]; cbn [List.length]; [lia | lia |].
  exfalso. inversion N as [| ? ? NI _]; subst. apply NI.
  rewrite (H a b); [now left | now left | right; now left].
Qed.

Lemma single_ratings_short (rows : list row) (uid : string) (v : vec) :
  single_ratings rows -> get uid (fst (load_ratings rows)) = Some v ->
  (List.length v <= 1)%nat.
Proof.
  intros H G.
  destruct (load_ratings_after rows) as (_ & _ & I3 & _ & I5 & _).
  destruct (I3 uid v G) as [N _].
  replace (List.length v) with (List.length (keys v))
    by (unfold keys; apply length_map).
  apply nodup_all_equal; [exact N |]. intros a b Ia Ib.
  destruct (proj1 (I5 uid a)) as [r Ir]; [now exists v |].
  destruct (proj1 (I5 uid b)) as [r' Ir']; [now exists v |].
  exact (H uid a b r r' Ir Ir').
Qed.

(** X19. Runs that score nobody. When no user has rated two different
    movies (an empty rating table included), or when percent is zero or
    less, every user is skipped, all four counts stay zero and the report
    divides by zero: the run raises [ZeroDivisionError], whatever the
    catalog holds and in whatever order the sets are gone through. *)
Theorem run_without_samples_raises (set_iter : pyset -> list string)
    (rand : nat -> R) (percent : Z) (movies : catalog) (rows : list row) :
  single_ratings rows \/ ((percent <= 0)%Z /\ unit_draws rand) ->
  (exists draws,
      score_all set_iter rand percent movies rows = Ok (tally0, draws)) /\
  calculate_rmse_for_each_distance_measure set_iter rand percent movies rows
  = Raise ZeroDivisionError.
Proof.
  intros H.
  assert (E : exists draws,
             score_all set_iter rand percent movies rows = Ok (tally0, draws)).
  { unfold score_all.
    destruct (load_ratings_after rows) as (I1 & _).
    destruct (for_each_invariant (fun st : tally * nat => fst st = tally0)
                (score_user set_iter rand (IZR percent / 100) movies
                   (fst (load_ratings rows)) (snd (load_ratings rows)))
                (fst (load_ratings rows)) (tally0, 0%nat))
      as ([t draws] & E & B).
    - intros [t draws] [uid v] I B. cbn [fst] in B. subst t.
      unfold score_user. cbn [fst snd].
      destruct (Nat.leb_spec (List.length v) 1) as [Le | Gt].
      + now exists (tally0, draws).
      + destruct H as [H | [Hp Hr]].
        * pose proof (single_ratings_short rows uid v H
                        (in_get uid v _ I1 I)). lia.
        * destruct (Rle_dec (IZR percent / 100) (rand draws)) as [_ | N].
          -- now exists (tally0, S draws).
          -- exfalso. apply N. apply Rle_trans with 0; [| apply Hr].
             apply IZR_le in Hp. lra.
    - reflexivity.
    - cbn [fst] in B. subst t. now exists draws. }
  split; [exact E |]. destruct E as [draws E].
  unfold calculate_rmse_for_each_distance_measure. rewrite E. cbn [bind fst].
  unfold report, rmse, tally0. cbn [cosine_dif cosine_length].
  now rewrite pydiv_zero.
Qed.

Lemma run_without_samples_raises_witness :
  single_ratings [("u1", "m1", 5); ("u2", "m1", 4)] /\
  calculate_rmse_for_each_distance_measure insertion_order (fun _ => 0) 100
    one_genre_catalog [("u1", "m1", 5); ("u2", "m1", 4)]
  = Raise ZeroDivisionError.
Proof.
  assert (H : single_ratings [("u1", "m1", 5); ("u2", "m1", 4)]).
  { intros uid mid mid' r r' [[= <- <- <-] | [[= <- <- <-] | []]]
      [[= <- <-] | [[= <- <-] | []]]; (reflexivity || discriminate). }
  split; [exact H |].
  apply (run_without_samples_raises insertion_order (fun _ => 0) 100
           one_genre_catalog [("u1", "m1", 5); ("u2", "m1", 4)] (or_introl H)).
Defined.

(** ** The serving path's scan of the rating table *)

Lemma vector_of_more (done more : list row) (uid : string) (v : vec) :
  vector_of done uid v -> vector_of (done ++ more)%list uid v.
Proof.
  intros (N & U & H). split; [exact N |]. split; [exact U |].
  intros mid r G. apply in_or_app. left. now apply H.
Qed.

Lemma vector_of_set (done : list row) (uid mid : string) (r : R) (v : vec) :
  unique_keys v ->
  (forall m x, get m v = Some x -> In (uid, m, x) done) ->
  vector_of (done ++ [(uid, mid, r)])%list uid (set mid r v).
Proof.
  intros U H. split; [apply set_not_nil |]. split; [now apply unique_keys_set |].
  intros m x G. apply in_or_app. destruct (string_dec m mid) as [-> | N].
  - right. left. f_equal. exact (get_set_same_inv mid r x v G).
  - left. apply H. exact (get_set_other_inv mid m r x v N G).
Qed.

Lemma relevant_set (movie_ids mid : string) (r : R) (v : vec) :
  is_substring mid movie_ids = true \/ relevant movie_ids v ->
  relevant movie_ids (set mid r v).
Proof.
  intros [S | (m & I & S)].
  - exists mid. split; [| exact S]. apply keys_set. now left.
  - exists m. split; [| exact S]. apply keys_set. now right.
Qed.

Lemma neighbours_more (user_id movie_ids : string) (done more : list row)
    (others : list vec) :
  (forall v, In v others ->
             relevant movie_ids v /\
             exists uid, uid <> user_id /\ vector_of done uid v) ->
  forall v, In v others ->
            relevant movie_ids v /\
            exists uid, uid <> user_id /\ vector_of (done ++ more)%list uid v.
Proof.
  intros H v I. destruct (H v I) as (Rv & uid & N & V).
  split; [exact Rv |]. exists uid. split; [exact N |]. now apply vector_of_more.
Qed.

Lemma scan_step (user_id movie_ids : string) (done : list row) (s : scan)
    (uid mid : string) (rating : R) :
  scan_after user_id movie_ids done s ->
  scan_after user_id movie_ids (done ++ [(uid, mid, rating)])%list
    (let s1 :=
       match current_uid_of s with
       | Some u =>
           if String.eqb u uid then s
           else
             let f := flush user_id s in
             mkScan (all_other_user_ratings_of f) (our_user_ratings_of f)
               [] (Some uid) false
       | None =>
           let f := flush user_id s in
           mkScan (all_other_user_ratings_of f) (our_user_ratings_of f)
             [] (Some uid) false
       end in
     mkScan (all_other_user_ratings_of s1) (our_user_ratings_of s1)
       (set mid rating (user_ratings_of s1)) (current_uid_of s1)
       (if is_substring mid movie_ids then true else insert_of s1)).
Proof.
  assert (E : forall u m r, ~ In (u, m, r) (@nil row)) by (intros u m r []).
  assert (fresh : vector_of (done ++ [(uid, mid, rating)])%list uid
                    (set mid rating [])).
  { split; [apply set_not_nil |]. split; [apply unique_keys_set; constructor |].
    intros m x G. apply in_or_app. right. left.
    destruct (string_dec m mid) as [-> | N].
    - f_equal. exact (get_set_same_inv mid rating x [] G).
    - apply (get_set_other_inv mid m rating x [] N) in G. discriminate. }
  assert (fresh_relevant :
            (if is_substring mid movie_ids then true else false) = true ->
            relevant movie_ids (set mid rating [])).
  { intros T. apply relevant_set. left.
    destruct (is_substring mid movie_ids); [reflexivity | discriminate]. }
  destruct s as [others ours cur [u |] ins]; unfold scan_after;
    cbn [current_uid_of user_ratings_of insert_of all_other_user_ratings_of
         our_user_ratings_of].
  - intros ((Nc & Uc & Hc) & Hi & Ho & Hu & Hn).
    destruct (String.eqb_spec u uid) as [-> | Nu];
      cbn [current_uid_of user_ratings_of insert_of all_other_user_ratings_of
           our_user_ratings_of].
    + split; [now apply vector_of_set |].
      split.
      { intros T. apply relevant_set.
        destruct (is_substring mid movie_ids); [now left | right; now apply Hi]. }
      split; [now apply neighbours_more |].
      split; [intros v G; apply vector_of_more; now apply Hu |].
      intros G N m x I. apply in_app_or in I.
      destruct I as [I | [[= -> _ _] | []]]; [now apply (Hn G N m x) | now apply N].
    + unfold flush;
        cbn [current_uid_of user_ratings_of insert_of all_other_user_ratings_of
             our_user_ratings_of].
      destruct (String.eqb_spec user_id u) as [<- | Nr];
        cbn [current_uid_of user_ratings_of insert_of all_other_user_ratings_of
             our_user_ratings_of].
      * split; [exact fresh |]. split; [exact fresh_relevant |].
        split; [now apply neighbours_more |].
        split; [| discriminate].
        intros v [= <-]. apply vector_of_more. now split.
      * assert (Hn' : ours = None -> uid <> user_id ->
                      forall m x, ~ In (user_id, m, x)
                                      (done ++ [(uid, mid, rating)])%list).
        { intros G N m x I. apply in_app_or in I.
          destruct I as [I | [[= -> _ _] | []]]; [| now apply N].
          apply (Hn G) in I; [exact I |]. intros ->. now apply Nr. }
        destruct ins;
          cbn [current_uid_of user_ratings_of insert_of
               all_other_user_ratings_of our_user_ratings_of].
        -- split; [exact fresh |]. split; [exact fresh_relevant |].
           split.
           { intros v I. apply in_app_or in I. destruct I as [I | [<- | []]].
             - now apply (neighbours_more user_id movie_ids done _ others Ho).
             - split; [now apply Hi |]. exists u.
               split; [intros ->; now apply Nr |].
               apply vector_of_more. now split. }
           split; [intros v G; apply vector_of_more; now apply Hu | exact Hn'].
        -- split; [exact fresh |]. split; [exact fresh_relevant |].
           split; [now apply neighbours_more |].
           split; [intros v G; apply vector_of_more; now apply Hu | exact Hn'].
  - intros [-> [= -> -> -> ->]]. unfold flush;
      cbn [current_uid_of user_ratings_of insert_of all_other_user_ratings_of
           our_user_ratings_of app].
    split; [exact fresh |]. split; [exact fresh_relevant |].
    split; [intros v [] |]. split; [discriminate |].
    intros _ N m x [[= -> _ _] | []]. now apply N.
Qed.

Lemma scan_rows (user_id movie_ids : string) (rows : list row) :
  scan_after user_id movie_ids rows
    (fold_left
       (fun s '(uid, mid, rating) =>
          let s1 :=
            match current_uid_of s with
            | Some u =>
                if String.eqb u uid then s
                else
                  let f := flush user_id s in
                  mkScan (all_other_user_ratings_of f) (our_user_ratings_of f)
                    [] (Some uid) false
            | None =>
                let f := flush user_id s in
                mkScan (all_other_user_ratings_of f) (our_user_ratings_of f)
                  [] (Some uid) false
            end in
          mkScan (all_other_user_ratings_of s1) (our_user_ratings_of s1)
            (set mid rating (user_ratings_of s1)) (current_uid_of s1)
            (if is_substring mid movie_ids then true else insert_of s1))
       rows (mkScan [] None [] None false)).
Proof.
  match goal with
  | |- scan_after _ _ _ (fold_left ?f _ ?s0) =>
      pose proof (fold_left_trace (scan_after user_id movie_ids) f rows [] s0) as T
  end.
  cbn [app] in T. apply T.
  - intros done s [[uid mid] rating]. apply scan_step.
  - unfold scan_after. cbn [current_uid_of]. now split.
Qed.

(** X20. What [get_relevant_user_ratings] returns, for every rating table
    in whatever order its rows come. Every neighbour vector is not empty, has
    one entry for a key, is made of rows of one user who is not the requesting
    user, and has an item that [mid in movie_ids] accepts. The requesting
    user's vector, when there is one, is made of rows of that user; there is
    none exactly when the table has no row of the requesting user. *)
Theorem get_relevant_user_ratings_result (user_id movie_ids : string)
    (rows : list row) :
  (forall v, In v (snd (get_relevant_user_ratings user_id movie_ids rows)) ->
             relevant movie_ids v /\
             exists uid, uid <> user_id /\ vector_of rows uid v) /\
  (forall v, fst (get_relevant_user_ratings user_id movie_ids rows) = Some v ->
             vector_of rows user_id v) /\
  (fst (get_relevant_user_ratings user_id movie_ids rows) = None <->
   forall mid r, ~ In (user_id, mid, r) rows).
Proof.
  pose proof (scan_rows user_id movie_ids rows) as S.
  unfold get_relevant_user_ratings. cbn zeta. cbn [fst snd].
  destruct (fold_left _ rows _) as [others ours cur [u |] ins];
    unfold scan_after in S;
    cbn [current_uid_of user_ratings_of insert_of all_other_user_ratings_of
         our_user_ratings_of] in S.
  - destruct S as (Vc & Hi & Ho & Hu & Hn). unfold flush.
    cbn [current_uid_of user_ratings_of insert_of all_other_user_ratings_of
         our_user_ratings_of].
    assert (own : forall v, vector_of rows user_id v ->
                            ~ forall mid r, ~ In (user_id, mid, r) rows).
    { intros [| [m x] v] (N & _ & H) A; [now apply N |].
      apply (A m x). apply H. apply get_cons_same. }
    destruct (String.eqb_spec user_id u) as [<- | Nr];
      cbn [current_uid_of user_ratings_of insert_of all_other_user_ratings_of
           our_user_ratings_of].
    + split; [exact Ho |]. split; [now intros v [= <-] |].
      split; [discriminate |]. intros A. now apply own in Vc.
    + assert (T : (forall v, ours = Some v -> vector_of rows user_id v) /\
                  (ours = None <-> forall mid r, ~ In (user_id, mid, r) rows)).
      { split; [exact Hu |]. split.
        - intros G. apply (Hn G). intros ->. now apply Nr.
        - intros A. destruct ours as [v |]; [| reflexivity].
          exfalso. exact (own v (Hu v eq_refl) A). }
      destruct ins;
        cbn [current_uid_of user_ratings_of insert_of all_other_user_ratings_of
             our_user_ratings_of]; (split; [| exact T]); [| exact Ho].
      intros v I. apply in_app_or in I. destruct I as [I | [<- | []]].
      * now apply Ho.
      * split; [now apply Hi |]. exists u. split; [| exact Vc].
        intros ->. now apply Nr.
  - destruct S as [-> [= -> -> -> ->]]. unfold flush.
    cbn [current_uid_of user_ratings_of insert_of all_other_user_ratings_of
         our_user_ratings_of].
    split; [intros v [] |]. split; [discriminate |].
    split; [intros _ mid r [] | reflexivity].
Qed.

Lemma kept_step (user_id movie_ids : string) (done : list row) (s : scan)
    (uid mid : string) (rating : R) :
  scan_after user_id movie_ids done s ->
  kept_after user_id movie_ids done s ->
  kept_after user_id movie_ids (done ++ [(uid, mid, rating)])%list
    (let s1 :=
       match current_uid_of s with
       | Some u =>
           if String.eqb u uid then s
           else
             let f := flush user_id s in
             mkScan (all_other_user_ratings_of f) (our_user_ratings_of f)
               [] (Some uid) false
       | None =>
           let f := flush user_id s in
           mkScan (all_other_user_ratings_of f) (our_user_ratings_of f)
             [] (Some uid) false
       end in
     mkScan (all_other_user_ratings_of s1) (our_user_ratings_of s1)
       (set mid rating (user_ratings_of s1)) (current_uid_of s1)
       (if is_substring mid movie_ids then true else insert_of s1)).
Proof.
  intros S K u m r I Nu T. apply in_app_or in I.
  destruct I as [I | [[= <- <- <-] | []]].
  - destruct (K u m r I Nu T) as [(v & Iv & Im & V) | (C & Ti & Im)].
    + left. exists v. split; [| split; [exact Im | now apply vector_of_more]].
      destruct s as [others ours cur [c |] ins];
        cbn [current_uid_of user_ratings_of insert_of all_other_user_ratings_of
             our_user_ratings_of] in *.
      * destruct (String.eqb c uid);
          cbn [current_uid_of user_ratings_of insert_of
               all_other_user_ratings_of our_user_ratings_of]; [exact Iv |].
        unfold flush;
          cbn [current_uid_of user_ratings_of insert_of
               all_other_user_ratings_of our_user_ratings_of].
        destruct (String.eqb user_id c); [exact Iv |].
        destruct ins; [apply in_or_app; now left | exact Iv].
      * unfold flush;
          cbn [current_uid_of user_ratings_of insert_of
               all_other_user_ratings_of our_user_ratings_of].
        destruct ins; [apply in_or_app; now left | exact Iv].
    + destruct s as [others ours cur c ins];
        cbn [current_uid_of user_ratings_of insert_of all_other_user_ratings_of
             our_user_ratings_of] in *.
      subst c ins. unfold scan_after in S.
      cbn [current_uid_of user_ratings_of insert_of all_other_user_ratings_of
           our_user_ratings_of] in S. destruct S as (Vc & _).
      destruct (String.eqb_spec u uid) as [<- | Nc];
        cbn [current_uid_of user_ratings_of insert_of all_other_user_ratings_of
             our_user_ratings_of].
      * right. split; [reflexivity |].
        split; [now destruct (is_substring mid movie_ids) |].
        apply keys_set. now right.
      * left. exists cur. unfold flush;
          cbn [current_uid_of user_ratings_of insert_of
               all_other_user_ratings_of our_user_ratings_of].
        destruct (String.eqb_spec user_id u) as [E | _];
          [now exfalso; apply Nu |].
        cbn [all_other_user_ratings_of].
        split; [apply in_or_app; right; now left |].
        split; [exact Im | now apply vector_of_more].
  - right. rewrite T.
    assert (C : current_uid_of
                  (match current_uid_of s with
                   | Some c =>
                       if String.eqb c uid then s
                       else
                         mkScan (all_other_user_ratings_of (flush user_id s))
                           (our_user_ratings_of (flush user_id s))
                           [] (Some uid) false
                   | None =>
                       mkScan (all_other_user_ratings_of (flush user_id s))
                         (our_user_ratings_of (flush user_id s))
                         [] (Some uid) false
                   end) = Some uid).
    { destruct (current_uid_of s) as [c |] eqn:Ec; [| reflexivity].
      destruct (String.eqb_spec c uid) as [<- | _]; [exact Ec | reflexivity]. }
    cbn zeta.
    cbn [current_uid_of user_ratings_of insert_of all_other_user_ratings_of
         our_user_ratings_of].
    split; [exact C |]. split; [reflexivity |]. apply keys_set. now left.
Qed.

Lemma kept_rows (user_id movie_ids : string) (rows : list row) :
  let s :=
    fold_left
      (fun s '(uid, mid, rating) =>
         let s1 :=
           match current_uid_of s with
           | Some u =>
               if String.eqb u uid then s
               else
                 let f := flush user_id s in
                 mkScan (all_other_user_ratings_of f) (our_user_ratings_of f)
                   [] (Some uid) false
           | None =>
               let f := flush user_id s in
               mkScan (all_other_user_ratings_of f) (our_user_ratings_of f)
                 [] (Some uid) false
           end in
         mkScan (all_other_user_ratings_of s1) (our_user_ratings_of s1)
           (set mid rating (user_ratings_of s1)) (current_uid_of s1)
           (if is_substring mid movie_ids then true else insert_of s1))
      rows (mkScan [] None [] None false) in
  scan_after user_id movie_ids rows s /\ kept_after user_id movie_ids rows s.
Proof.
  cbn zeta.
  match goal with
  | |- scan_after _ _ _ (fold_left ?f _ ?s0) /\ _ =>
      pose proof (fold_left_trace
                    (fun done s => scan_after user_id movie_ids done s /\
                                   kept_after user_id movie_ids done s)
                    f rows [] s0) as T
  end.
  cbn [app] in T. apply T.
  - intros done s [[uid mid] rating] [S K].
    split; [now apply scan_step | now apply kept_step].
  - split; [unfold scan_after; cbn [current_uid_of]; now split |].
    intros uid mid r [].
Qed.

(** X21. [get_relevant_user_ratings] misses no neighbour. For every row of
    the rating table of a user other than the requesting user whose item
    [mid in movie_ids] accepts, a vector of that user holding the item is
    among the neighbour vectors returned, in whatever order the rows come. *)
Theorem get_relevant_user_ratings_keeps (user_id movie_ids : string)
    (rows : list row) (uid mid : string) (r : R) :
  In (uid, mid, r) rows -> uid <> user_id ->
  is_substring mid movie_ids = true ->
  exists v,
    In v (snd (get_relevant_user_ratings user_id movie_ids rows)) /\
    In mid (keys v) /\ vector_of rows uid v.
Proof.
  intros I Nu T.
  destruct (kept_rows user_id movie_ids rows) as [S K].
  unfold get_relevant_user_ratings. cbn zeta. cbn [snd].
  destruct (fold_left _ rows _) as [others ours cur c ins].
  destruct (K uid mid r I Nu T) as [(v & Iv & Im & V) | (C & Ti & Im)];
    cbn [current_uid_of user_ratings_of insert_of all_other_user_ratings_of
         our_user_ratings_of] in *.
  - exists v. split; [| now split]. unfold flush;
      cbn [current_uid_of user_ratings_of insert_of all_other_user_ratings_of
           our_user_ratings_of].
    destruct c as [c |]; [destruct (String.eqb user_id c); [exact Iv |] |];
      (destruct ins; [apply in_or_app; now left | exact Iv]).
  - subst c ins. unfold scan_after in S.
    cbn [current_uid_of user_ratings_of insert_of all_other_user_ratings_of
         our_user_ratings_of] in S. destruct S as (Vc & _).
    exists cur. unfold flush;
      cbn [current_uid_of user_ratings_of insert_of all_other_user_ratings_of
           our_user_ratings_of].
    destruct (String.eqb_spec user_id uid) as [E | _]; [now exfalso; apply Nu |].
    cbn [all_other_user_ratings_of].
    split; [apply in_or_app; right; now left | now split].
Qed.

Lemma get_relevant_user_ratings_keeps_witness :
  exists v,
    In v (snd (get_relevant_user_ratings "u1" "m1" two_user_rows)) /\
    In "m1" (keys v) /\ vector_of two_user_rows "u2" v.
Proof.
  apply (get_relevant_user_ratings_keeps "u1" "m1" two_user_rows "u2" "m1" 4).
  - right. right. left. reflexivity.
  - discriminate.
  - reflexivity.
Defined.

(** ** The catalog read from [movies.csv] *)

Lemma split_not_nil (sep : ascii) (s : string) : split sep s <> [].
Proof.
  destruct s as [| c s]; cbn [split]; [discriminate |].
  destruct (Ascii.eqb c sep); [discriminate |].
  destruct (split sep s); discriminate.
Qed.

Lemma join_split (sep : ascii) (s : string) : join sep (split sep s) = s.
Proof.
  induction s as [| c s IH]; [reflexivity |]. cbn [split].
  pose proof (split_not_nil sep s) as N.
  destruct (Ascii.eqb_spec c sep) as [-> | _].
  - destruct (split sep s) as [| p ps]; [contradiction |].
    cbn [join]. cbn [join] in IH. now rewrite IH.
  - destruct (split sep s) as [| p ps]; [contradiction |].
    cbn [join] in *. destruct ps as [| q qs]; [now rewrite IH |].
    cbn [append]. now rewrite IH.
Qed.

Lemma split_free (sep : ascii) (s piece : string) :
  In piece (split sep s) -> free_of sep piece.
Proof.
  revert piece. induction s as [| c s IH]; intros piece I.
  - destruct I as [<- | []]. exact Logic.I.
  - cbn [split] in I. destruct (Ascii.eqb_spec c sep) as [-> | N].
    + destruct I as [<- | I]; [exact Logic.I | now apply IH].
    + pose proof (split_not_nil sep s) as Nn.
      destruct (split sep s) as [| p ps]; [contradiction |].
      destruct I as [<- | I].
      * split; [exact N |]. apply IH. now left.
      * apply IH. now right.
Qed.

Lemma list_mem_in (x : string) (l : list string) :
  list_mem x l = true <-> In x l.
Proof.
  unfold list_mem. rewrite existsb_exists. split.
  - intros (y & I & E). apply String.eqb_eq in E. now subst.
  - intros I. exists x. split; [exact I | apply String.eqb_refl].
Qed.

Lemma taken_test (movie_ids : list string) (get_all : bool) (mid : string) :
  (if get_all then true else list_mem mid movie_ids) = true
  <-> taken movie_ids get_all mid.
Proof.
  unfold taken. destruct get_all.
  - split; [now left | reflexivity].
  - rewrite list_mem_in. split; [now right | now intros [? | ?]].
Qed.

Lemma get_movies_from_ids_rows (movie_ids : list string) (get_all : bool)
    (rows : list movie_row) :
  let movies := get_movies_from_ids movie_ids get_all rows in
  unique_keys movies /\
  (forall mid m,
      get mid movies = Some m ->
      taken movie_ids get_all mid /\
      exists g, In (mid, title m, g) rows /\ genres m = split "|" g) /\
  (forall mid t g,
      In (mid, t, g) rows -> taken movie_ids get_all mid ->
      exists m, get mid movies = Some m).
Proof.
  cbn zeta. unfold get_movies_from_ids.
  match goal with
  | |- context [fold_left ?f rows ?d0] =>
      pose proof
        (fold_left_trace
           (fun done (d : catalog) =>
              unique_keys d /\
              (forall mid m,
                  get mid d = Some m ->
                  taken movie_ids get_all mid /\
                  exists g, In (mid, title m, g) done /\
                            genres m = split "|" g) /\
              (forall mid t g,
                  In (mid, t, g) done -> taken movie_ids get_all mid ->
                  exists m, get mid d = Some m))
           f rows [] d0) as T
  end.
  cbn [app] in T. apply T.
  - intros done d [[mid t] g] (U & S & C).
    destruct (if get_all then true else list_mem mid movie_ids) eqn:A.
    + apply taken_test in A.
      split; [now apply unique_keys_set |]. split.
      * intros k m G. destruct (string_dec k mid) as [-> | N].
        -- apply get_set_same_inv in G. subst m. split; [exact A |].
           exists g. split; [apply in_or_app; right; now left | reflexivity].
        -- apply (get_set_other_inv mid k _ m d N) in G.
           destruct (S k m G) as (Tk & g' & I & E). split; [exact Tk |].
           exists g'. split; [apply in_or_app; now left | exact E].
      * intros k t' g' I Tk. destruct (string_dec k mid) as [-> | N].
        -- rewrite get_set_same. now eexists.
        -- rewrite get_set_other by exact N.
           apply in_app_or in I. destruct I as [I | [[= E _ _] | []]].
           ++ now apply (C k t' g').
           ++ now exfalso; apply N.
    + split; [exact U |]. split.
      * intros k m G. destruct (S k m G) as (Tk & g' & I & E).
        split; [exact Tk |]. exists g'.
        split; [apply in_or_app; now left | exact E].
      * intros k t' g' I Tk.
        apply in_app_or in I. destruct I as [I | [[= -> _ _] | []]].
        -- now apply (C k t' g').
        -- apply taken_test in Tk. congruence.
  - split; [constructor |]. split; [discriminate |]. intros mid t g [].
Qed.

(** X22. The catalog that [get_movies_from_ids] builds has one entry for a
    movie id. Every entry comes from a row that is taken (every row with
    [get_all], else the rows whose id is in [movie_ids]) and has that row's
    title, and every row that is taken has an entry: no movie of the file is
    lost, and no movie that was not asked for is in the catalog. *)
Theorem get_movies_from_ids_entries (movie_ids : list string) (get_all : bool)
    (rows : list movie_row) :
  unique_keys (get_movies_from_ids movie_ids get_all rows) /\
  (forall mid m,
      get mid (get_movies_from_ids movie_ids get_all rows) = Some m ->
      taken movie_ids get_all mid /\
      exists g, In (mid, title m, g) rows /\ genres m = split "|" g) /\
  (forall mid t g,
      In (mid, t, g) rows -> taken movie_ids get_all mid ->
      exists m, get mid (get_movies_from_ids movie_ids get_all rows) = Some m).
Proof. apply get_movies_from_ids_rows. Qed.

(** X23. Splitting the genres field loses nothing. Every movie of the
    catalog has at least one genre (a movie with an empty field has the one
    genre that is the empty string), no genre contains the separator, and
    joining the genres with the separator gives back the field of a row of
    that movie with that title. *)
Theorem genres_round_trip (movie_ids : list string) (get_all : bool)
    (rows : list movie_row) (mid : string) (m : Movie) :
  get mid (get_movies_from_ids movie_ids get_all rows) = Some m ->
  genres m <> [] /\
  (forall genre, In genre (genres m) -> free_of "|" genre) /\
  In (mid, title m, join "|" (genres m)) rows.
Proof.
  intros G.
  destruct (get_movies_from_ids_rows movie_ids get_all rows) as (_ & S & _).
  destruct (S mid m G) as (_ & g & I & E). rewrite E.
  split; [apply split_not_nil |].
  split; [intros genre; apply split_free |].
  now rewrite join_split.
Qed.

Lemma genres_round_trip_witness :
  genres (mkMovie "Heat" ["Action"; "Crime"]) <> [] /\
  (forall genre, In genre (genres (mkMovie "Heat" ["Action"; "Crime"])) ->
                 free_of "|" genre) /\
  In ("6", title (mkMovie "Heat" ["Action"; "Crime"]),
      join "|" (genres (mkMovie "Heat" ["Action"; "Crime"])))
     [("1", "Toy Story", "Animation|Comedy"); ("6", "Heat", "Action|Crime")].
Proof.
  apply (genres_round_trip ["6"] false
           [("1", "Toy Story", "Animation|Comedy"); ("6", "Heat", "Action|Crime")]
           "6" (mkMovie "Heat" ["Action"; "Crime"])).
  reflexivity.
Defined.

(** X24. The catalog that [main] hands to the cross-validation, read with
    [get_all], has every rated movie as soon as [movies.csv] has a row for
    every movie id of the rating table. *)
Theorem full_catalog_is_complete (movie_ids : list string)
    (movie_rows : list movie_row) (rows : list row) :
  (forall uid mid r, In (uid, mid, r) rows ->
                     exists t g, In (mid, t, g) movie_rows) ->
  catalog_complete (get_movies_from_ids movie_ids true movie_rows) rows.
Proof.
  intros H uid mid r I. destruct (H uid mid r I) as (t & g & Im).
  destruct (get_movies_from_ids_rows movie_ids true movie_rows) as (_ & _ & C).
  apply (C mid t g Im). now left.
Qed.

Lemma full_catalog_is_complete_witness :
  catalog_complete
    (get_movies_from_ids [] true [("k", "K", "G"); ("j", "J", "G")])
    lone_user_rows.
Proof.
  apply (full_catalog_is_complete [] [("k", "K", "G"); ("j", "J", "G")]
           lone_user_rows).
  intros uid mid r [[= <- <- <-] | [[= <- <- <-] | []]].
  - exists "K"%string, "G"%string. now left.
  - exists "J"%string, "G"%string. right. now left.
Defined.

(** ** The conversion of IMDb ids *)

Lemma length_zeros_append (n : nat) (s : string) :
  String.length (zeros n ++ s) = (n + String.length s)%nat.
Proof. induction n as [| n IH]; cbn; [reflexivity | now rewrite IH]. Qed.

Lemma zfill_length (width : nat) (s : string) :
  String.length (zfill width s) = Nat.max width (String.length s).
Proof.
  unfold zfill. destruct (Nat.leb_spec width (String.length s)) as [Le | Gt].
  - lia.
  - destruct s as [| c rest].
    + pose proof (length_zeros_append (width - 0) EmptyString) as L.
      cbn [String.length] in *.
      replace (zeros (width - 0) ++ EmptyString)%string with (zeros (width - 0))
        in L; [lia |].
      clear. induction (width - 0)%nat as [| n IH]; cbn; [reflexivity |].
      now rewrite <- IH.
    + destruct (Ascii.eqb c "+" || Ascii.eqb c "-").
      * cbn [String.length]. rewrite length_zeros_append.
        cbn [String.length] in Gt. lia.
      * rewrite length_zeros_append. lia.
Qed.

Lemma zfill_idempotent (width : nat) (s : string) :
  zfill width (zfill width s) = zfill width s.
Proof.
  unfold zfill at 1. rewrite zfill_length.
  destruct (Nat.leb_spec width (Nat.max width (String.length s))); [reflexivity | lia].
Qed.


(** X26. The conversion of IMDb ids does not depend on leading zeros: an id
    of fewer than seven characters is matched as its padded form, so giving
    the ids already padded changes nothing. Every movie id returned belongs
    to a row of [links.csv] whose IMDb id is the padded form of one of the
    ids, and every such row's movie id is returned. *)
Theorem imdb_conversion_pads (ids : list string) (links : list link_row) :
  get_movie_ids_from_webdb_ids (map (zfill 7) ids) true false links
  = get_movie_ids_from_webdb_ids ids true false links /\
  forall mid,
    In mid (get_movie_ids_from_webdb_ids ids true false links) <->
    exists id tmdb_id, In id ids /\ In (mid, zfill 7 id, tmdb_id) links.
Proof.
  split.
  - unfold get_movie_ids_from_webdb_ids. cbn zeta. rewrite map_map.
    replace (map (fun x => zfill 7 (zfill 7 x)) ids) with (map (zfill 7) ids);
      [reflexivity |].
    apply map_ext. intros id. symmetry. apply zfill_idempotent.
  - intros mid. unfold get_movie_ids_from_webdb_ids. cbn zeta.
    rewrite in_map_iff. split.
    + intros ([[m i] t] & <- & I). apply filter_In in I. destruct I as [I M].
      apply list_mem_in, in_map_iff in M. destruct M as (id & <- & Iid).
      now exists id, t.
    + intros (id & t & Iid & I). exists (mid, zfill 7 id, t).
      split; [reflexivity |]. apply filter_In. split; [exact I |].
      apply list_mem_in, in_map_iff. now exists id.
Qed.
